(** * Sound-device routing model of Mixxx: [soundmanagerutil.cpp]

    A shallow embedding of [ChannelGroup], [AudioPath], [AudioOutput] and
    [AudioInput], and the properties of clash detection, hashing, type
    coercion and XML persistence that the rest of the engine relies on.

    Conventions.
    - An [unsigned char] is a [Z] in [0, 256); an [unsigned int] a [Z] in
      [0, 2^32).  C++ promotes [unsigned char] operands to [int] before
      arithmetic, comparison, shift and bitwise or, so none of the
      expressions below wraps; the conversions that can lose bits
      ([unsigned int] to [unsigned char] at a call, [int] to
      [unsigned int] at a return) are written out as [to_uchar] and
      [to_uint].
    - A [QString] is a [string]; a [QDomElement] is a tag name with a
      finite map of attributes. *)

From Stdlib Require Import ZArith Lia Bool List.
From Stdlib Require Import Ascii String DecimalString DecimalPos DecimalZ.
From stdpp Require Import base gmap strings.

Local Open Scope string_scope.
Local Open Scope Z_scope.

(** ** Machine integers *)

Definition uchar (z : Z) : Prop := 0 <= z < 256.

Definition to_uchar (z : Z) : Z := z mod 256.

Definition to_uint (z : Z) : Z := z mod 2 ^ 32.

(** ** ChannelGroup *)

Module ChannelGroup.

Record t : Type := new {
  m_channelBase : Z;
  m_channels : Z
}.

(** The two members are [unsigned char]. *)
Definition wf (g : t) : Prop :=
  uchar (m_channelBase g) /\ uchar (m_channels g).

Definition getChannelBase (g : t) : Z := m_channelBase g.

Definition getChannelCount (g : t) : Z := m_channels g.

(** [operator==] *)
Definition eqb (g other : t) : bool :=
  (m_channelBase g =? m_channelBase other)
  && (m_channels g =? m_channels other).

Definition clashesWith (g other : t) : bool :=
  if (m_channels g =? 0) || (m_channels other =? 0) then false
  else
    ((m_channelBase g >? m_channelBase other)
     && (m_channelBase g <? m_channelBase other + m_channels other))
    || ((m_channelBase other >? m_channelBase g)
        && (m_channelBase other <? m_channelBase g + m_channels g))
    || (m_channelBase g =? m_channelBase other).

Definition getHash (g : t) : Z :=
  to_uint (Z.lor (Z.lor 0 (Z.shiftl (m_channels g) 8)) (m_channelBase g)).

(** Channel [i] lies in the half-open range [[base, base + count)]. *)
Definition covers (g : t) (i : Z) : Prop :=
  m_channelBase g <= i < m_channelBase g + m_channels g.

(** The two groups have a channel in common. *)
Definition overlap (g other : t) : Prop :=
  exists i : Z, covers g i /\ covers other i.

End ChannelGroup.

(** ** QString and QDomElement

    Qt is outside the repository.  Of [QString] the code uses [toLower],
    [==], [number] (through [setAttribute] on an integer) and [toUInt];
    they are modelled on ASCII text and plain decimal numerals, which is
    what [toXML] writes. *)

Module QString.

Definition toLower_char (c : ascii) : ascii :=
  let n := N_of_ascii c in
  if ((65 <=? n) && (n <=? 90))%N then ascii_of_N (n + 32) else c.

Fixpoint toLower (s : string) : string :=
  match s with
  | EmptyString => EmptyString
  | String c rest => String (toLower_char c) (toLower rest)
  end.

(** [QString::number(int)]: decimal, with a minus sign when negative. *)
Definition number (n : Z) : string :=
  NilZero.string_of_int (Z.to_int n).

(** [QString::toUInt()]: the value of a decimal numeral that fits in an
    [unsigned int], and 0 when the conversion fails. *)
Definition toUInt (s : string) : Z :=
  match NilZero.uint_of_string s with
  | Some d => let n := Z.of_uint d in if n <? 2 ^ 32 then n else 0
  | None => 0
  end.

(** [QString("%1 %2").arg(a1, a2)]: both markers are replaced in one
    pass, so the arguments are not searched for markers. *)
Definition arg_1_2 (a1 a2 : string) : string :=
  (a1 ++ " " ++ a2)%string.

End QString.

Module QDomElement.

Record t : Type := mk {
  tagName : string;
  attributes : gmap string string
}.

Definition setTagName (name : string) (e : t) : t :=
  mk name (attributes e).

Definition setAttribute (name value : string) (e : t) : t :=
  mk (tagName e) (<[name := value]> (attributes e)).

(** [attribute(name, defValue)] *)
Definition attribute (name defValue : string) (e : t) : string :=
  default defValue (attributes e !! name).

End QDomElement.

(** ** AudioPathType *)

Inductive AudioPathType : Type :=
| MASTER
| HEADPHONES
| BUS
| DECK
| VINYLCONTROL
| MICROPHONE
| AUXILLIARY
| INVALID.

#[global] Instance AudioPathType_eq_dec : EqDecision AudioPathType.
Proof. solve_decision. Defined.

Definition AudioPathType_eqb (a b : AudioPathType) : bool :=
  bool_decide (a = b).

(** [QList<AudioPathType>::contains] *)
Definition contains (types : list AudioPathType) (type : AudioPathType) : bool :=
  existsb (AudioPathType_eqb type) types.

(** The enumerators' numeric values come from the order in which
    [enum AudioPathType] lists them in soundmanagerutil.h.  The functions
    that convert between the enum and [int] take that order as [order];
    the first enumerator has value 0 and each next one is one larger. *)
Fixpoint ordinal (order : list AudioPathType) (type : AudioPathType) : Z :=
  match order with
  | [] => 0
  | u :: rest => if decide (u = type) then 0 else 1 + ordinal rest type
  end.

(** The enumerator whose value is [n], if any. *)
Definition enumerator (order : list AudioPathType) (n : Z) : option AudioPathType :=
  if n <? 0 then None else order !! Z.to_nat n.

(** An order lists every enumerator once. *)
Definition enum_order (order : list AudioPathType) : Prop :=
  NoDup order /\ forall type : AudioPathType, type ∈ order.

(** Modelled from the spec: the declaration of [enum AudioPathType]
    (soundmanagerutil.h); this is the order of section 3 of the
    specification, with [INVALID] first as the zero value. *)
Definition spec_order : list AudioPathType :=
  [INVALID; MASTER; HEADPHONES; BUS; DECK; VINYLCONTROL; MICROPHONE; AUXILLIARY].

(** The same enumerators with [INVALID] listed last, where it bounds the
    others from above. *)
Definition sentinel_order : list AudioPathType :=
  [MASTER; HEADPHONES; BUS; DECK; VINYLCONTROL; MICROPHONE; AUXILLIARY; INVALID].

(** ** EngineChannel

    [EngineChannel::LEFT], [CENTER] and [RIGHT] are declared in
    engine/enginechannel.h; the three values are taken as given. *)

Module EngineChannel.

Record ChannelOrientation : Type := orientation {
  LEFT : Z;
  CENTER : Z;
  RIGHT : Z
}.

End EngineChannel.

(** ** AudioPath *)

Module AudioPath.

Record t : Type := mk {
  m_type : AudioPathType;
  m_index : Z;
  m_channelGroup : ChannelGroup.t
}.

Definition wf (p : t) : Prop :=
  uchar (m_index p) /\ ChannelGroup.wf (m_channelGroup p).

(** The base-class constructor sets the channel group only; every
    derived constructor then assigns [m_type] and [m_index], so the
    values given to them here are never read. *)
Definition new (channelBase channels : Z) : t :=
  mk INVALID 0 (ChannelGroup.new channelBase channels).

Definition set_type (type : AudioPathType) (p : t) : t :=
  mk type (m_index p) (m_channelGroup p).

Definition set_index (index : Z) (p : t) : t :=
  mk (m_type p) index (m_channelGroup p).

Definition getType (p : t) : AudioPathType := m_type p.

Definition getChannelGroup (p : t) : ChannelGroup.t := m_channelGroup p.

Definition getIndex (p : t) : Z := m_index p.

(** [operator==] *)
Definition eqb (p other : t) : bool :=
  AudioPathType_eqb (m_type p) (m_type other)
  && (m_index p =? m_index other).

Definition getHash (order : list AudioPathType) (p : t) : Z :=
  to_uint (Z.lor (Z.lor 0 (Z.shiftl (ordinal order (m_type p)) 8)) (m_index p)).

Definition channelsClash (p other : t) : bool :=
  ChannelGroup.clashesWith (m_channelGroup p) (m_channelGroup other).

Definition getStringFromType (type : AudioPathType) : string :=
  match type with
  | INVALID => "Invalid"
  | MASTER => "Master"
  | HEADPHONES => "Headphones"
  | BUS => "Bus"
  | DECK => "Deck"
  | VINYLCONTROL => "Vinyl Control"
  | MICROPHONE => "Microphone"
  | AUXILLIARY => "Auxilliary"
  end.

Definition getTypeFromString (str : string) : AudioPathType :=
  let str := QString.toLower str in
  if (str =? QString.toLower (getStringFromType MASTER))%string then MASTER
  else if (str =? QString.toLower (getStringFromType HEADPHONES))%string then HEADPHONES
  else if (str =? QString.toLower (getStringFromType BUS))%string then BUS
  else if (str =? QString.toLower (getStringFromType DECK))%string then DECK
  else if (str =? QString.toLower (getStringFromType VINYLCONTROL))%string then VINYLCONTROL
  else if (str =? QString.toLower (getStringFromType MICROPHONE))%string then MICROPHONE
  else if (str =? QString.toLower (getStringFromType AUXILLIARY))%string then AUXILLIARY
  else INVALID.

Definition isIndexed (type : AudioPathType) : bool :=
  match type with
  | BUS | DECK | VINYLCONTROL | AUXILLIARY => true
  | _ => false
  end.

(** [static_cast<AudioPathType>(typeInt)] is reached only for
    [0 <= typeInt < INVALID], where [typeInt] is an enumerator's value
    ([getTypeFromInt_in_range] below); the [default] is never taken. *)
Definition getTypeFromInt (order : list AudioPathType) (typeInt : Z) : AudioPathType :=
  if (typeInt <? 0) || (typeInt >=? ordinal order INVALID) then INVALID
  else default INVALID (enumerator order typeInt).

Definition minChannelsForType (type : AudioPathType) : Z :=
  match type with
  | VINYLCONTROL => 2
  | _ => 1
  end.

Definition maxChannelsForType (type : AudioPathType) : Z := 2.

(** [tr] is [QObject::tr], the translation installed at run time. *)
Definition getTrStringFromType (tr : string -> string)
    (o : EngineChannel.ChannelOrientation)
    (type : AudioPathType) (index : Z) : string :=
  match type with
  | INVALID => tr "Invalid"
  | MASTER => tr "Master"
  | HEADPHONES => tr "Headphones"
  | BUS =>
      if index =? EngineChannel.LEFT o then tr "Left Bus"
      else if index =? EngineChannel.CENTER o then tr "Center Bus"
      else if index =? EngineChannel.RIGHT o then tr "Right Bus"
      else tr "Invalid Bus"
  | DECK => QString.arg_1_2 (tr "Deck") (QString.number (index + 1))
  | VINYLCONTROL =>
      QString.arg_1_2 (tr "Vinyl Control") (QString.number (index + 1))
  | MICROPHONE => tr "Microphone"
  | AUXILLIARY =>
      QString.arg_1_2 (tr "Auxilliary") (QString.number (index + 1))
  end.

Definition getString (tr : string -> string)
    (o : EngineChannel.ChannelOrientation) (p : t) : string :=
  getTrStringFromType tr o (m_type p) (m_index p).

End AudioPath.

(** ** AudioOutput *)

Module AudioOutput.

Definition getSupportedTypes : list AudioPathType :=
  [MASTER; HEADPHONES; BUS; DECK].

Definition setType (type : AudioPathType) (p : AudioPath.t) : AudioPath.t :=
  if contains getSupportedTypes type then AudioPath.set_type type p
  else AudioPath.set_type INVALID p.

(** The constructor. *)
Definition new (type : AudioPathType) (channelBase channels index : Z) : AudioPath.t :=
  let p := AudioPath.new channelBase channels in
  let p := setType type p in
  if AudioPath.isIndexed type then AudioPath.set_index index p
  else AudioPath.set_index 0 p.

Definition toXML (p : AudioPath.t) (element : QDomElement.t) : QDomElement.t :=
  let element := QDomElement.setTagName "output" element in
  let element :=
    QDomElement.setAttribute "type"
      (AudioPath.getStringFromType (AudioPath.m_type p)) element in
  let element :=
    QDomElement.setAttribute "index"
      (QString.number (AudioPath.m_index p)) element in
  let element :=
    QDomElement.setAttribute "channel"
      (QString.number (ChannelGroup.getChannelBase (AudioPath.m_channelGroup p)))
      element in
  QDomElement.setAttribute "channel_count"
    (QString.number (ChannelGroup.getChannelCount (AudioPath.m_channelGroup p)))
    element.

Definition fromXML (xml : QDomElement.t) : AudioPath.t :=
  let type := AudioPath.getTypeFromString (QDomElement.attribute "type" "" xml) in
  let index := QString.toUInt (QDomElement.attribute "index" "0" xml) in
  let channel := QString.toUInt (QDomElement.attribute "channel" "0" xml) in
  let channels := QString.toUInt (QDomElement.attribute "channel_count" "0" xml) in
  let channels :=
    if channels =? 0
    then (if AudioPathType_eqb type MICROPHONE then 1 else 2)
    else channels in
  new type (to_uchar channel) (to_uchar channels) (to_uchar index).

End AudioOutput.

(** ** AudioInput

    [vinylcontrol] tells whether the build defines [__VINYLCONTROL__]. *)

Module AudioInput.

Definition getSupportedTypes (vinylcontrol : bool) : list AudioPathType :=
  (if vinylcontrol then [VINYLCONTROL] else []) ++ [AUXILLIARY; MICROPHONE].

Definition setType (vinylcontrol : bool) (type : AudioPathType)
    (p : AudioPath.t) : AudioPath.t :=
  if contains (getSupportedTypes vinylcontrol) type then AudioPath.set_type type p
  else AudioPath.set_type INVALID p.

(** The constructor. *)
Definition new (vinylcontrol : bool) (type : AudioPathType)
    (channelBase channels index : Z) : AudioPath.t :=
  let p := AudioPath.new channelBase channels in
  let p := setType vinylcontrol type p in
  if AudioPath.isIndexed type then AudioPath.set_index index p
  else AudioPath.set_index 0 p.

Definition toXML (p : AudioPath.t) (element : QDomElement.t) : QDomElement.t :=
  let element := QDomElement.setTagName "input" element in
  let element :=
    QDomElement.setAttribute "type"
      (AudioPath.getStringFromType (AudioPath.m_type p)) element in
  let element :=
    QDomElement.setAttribute "index"
      (QString.number (AudioPath.m_index p)) element in
  let element :=
    QDomElement.setAttribute "channel"
      (QString.number (ChannelGroup.getChannelBase (AudioPath.m_channelGroup p)))
      element in
  QDomElement.setAttribute "channel_count"
    (QString.number (ChannelGroup.getChannelCount (AudioPath.m_channelGroup p)))
    element.

Definition fromXML (vinylcontrol : bool) (xml : QDomElement.t) : AudioPath.t :=
  let type := AudioPath.getTypeFromString (QDomElement.attribute "type" "" xml) in
  let index := QString.toUInt (QDomElement.attribute "index" "0" xml) in
  let channel := QString.toUInt (QDomElement.attribute "channel" "0" xml) in
  let channels := QString.toUInt (QDomElement.attribute "channel_count" "0" xml) in
  let channels :=
    if channels =? 0
    then (if AudioPathType_eqb type MICROPHONE then 1 else 2)
    else channels in
  new vinylcontrol type (to_uchar channel) (to_uchar channels) (to_uchar index).

End AudioInput.

(** [qHash] of the three key types. *)
Definition qHash_ChannelGroup (group : ChannelGroup.t) : Z :=
  ChannelGroup.getHash group.

Definition qHash_AudioOutput (order : list AudioPathType) (output : AudioPath.t) : Z :=
  AudioPath.getHash order output.

Definition qHash_AudioInput (order : list AudioPathType) (input : AudioPath.t) : Z :=
  AudioPath.getHash order input.

(** * Properties *)

(** ** Machine-integer facts *)

Lemma uchar_to_uchar (z : Z) : uchar z -> to_uchar z = z.
Proof. unfold uchar, to_uchar. intros H. apply Z.mod_small. lia. Qed.


(** Or-ing a byte below a value shifted left by eight bits adds it. *)
Lemma lor_shiftl_8 (hi lo : Z) :
  uchar lo -> Z.lor (Z.lor 0 (Z.shiftl hi 8)) lo = hi * 256 + lo.
Proof.
  intros Hlo. rewrite Z.lor_0_l, Z.shiftl_mul_pow2 by lia.
  change (2 ^ 8) with 256.
  assert (Hdisj : Z.land (hi * 256) lo = 0).
  { apply Z.bits_inj'. intros n Hn.
    rewrite Z.land_spec, Z.bits_0.
    destruct (Z.lt_ge_cases n 8) as [Hlt | Hge].
    - change 256 with (2 ^ 8).
      rewrite Z.mul_pow2_bits_low by lia. reflexivity.
    - replace lo with (lo mod 2 ^ 8)
        by (apply Z.mod_small; unfold uchar in Hlo; lia).
      rewrite Z.mod_pow2_bits_high by lia. apply andb_false_r. }
  rewrite <- Z.lxor_lor by exact Hdisj.
  symmetry. apply Z.add_nocarry_lxor. exact Hdisj.
Qed.

Lemma hash_value (hi lo : Z) :
  0 <= hi < 2 ^ 24 -> uchar lo ->
  to_uint (Z.lor (Z.lor 0 (Z.shiftl hi 8)) lo) = hi * 256 + lo.
Proof.
  intros Hhi Hlo. rewrite lor_shiftl_8 by exact Hlo.
  unfold to_uint. apply Z.mod_small. unfold uchar in Hlo. lia.
Qed.

(** ** ChannelGroup *)

Section ChannelGroupFacts.

Import ChannelGroup.

Variables g other : ChannelGroup.t.

Lemma ChannelGroup_eqb_true_iff : eqb g other = true <-> g = other.
Proof.
  unfold eqb. destruct g as [b c], other as [b' c']; simpl.
  rewrite andb_true_iff, !Z.eqb_eq. split.
  - intros [-> ->]. reflexivity.
  - intros [= -> ->]. split; reflexivity.
Qed.

Lemma clashesWith_true_iff :
  clashesWith g other = true <->
  m_channels g <> 0 /\ m_channels other <> 0 /\
  ((m_channelBase other < m_channelBase g
    /\ m_channelBase g < m_channelBase other + m_channels other)
   \/ (m_channelBase g < m_channelBase other
       /\ m_channelBase other < m_channelBase g + m_channels g)
   \/ m_channelBase g = m_channelBase other).
Proof.
  unfold clashesWith.
  destruct (Z.eqb_spec (m_channels g) 0) as [Hc | Hc]; simpl.
  { split; [discriminate | tauto]. }
  destruct (Z.eqb_spec (m_channels other) 0) as [Hc' | Hc']; simpl.
  { split; [discriminate | tauto]. }
  rewrite !orb_true_iff, !andb_true_iff, Z.eqb_eq, !Z.ltb_lt.
  rewrite !Z.gtb_ltb, !Z.ltb_lt. tauto.
Qed.

Lemma clashesWith_overlap :
  wf g -> wf other ->
  (clashesWith g other = true <->
   m_channels g <> 0 /\ m_channels other <> 0 /\ overlap g other).
Proof.
  intros [Hb Hc] [Hb' Hc']. unfold uchar in *.
  rewrite clashesWith_true_iff. unfold overlap, covers.
  split.
  - intros (Hn & Hn' & Hcase). split; [exact Hn|]. split; [exact Hn'|].
    destruct Hcase as [[H1 H2] | [[H1 H2] | H1]].
    + exists (m_channelBase g). lia.
    + exists (m_channelBase other). lia.
    + exists (m_channelBase g). lia.
  - intros (Hn & Hn' & i & Hi & Hi'). split; [exact Hn|]. split; [exact Hn'|].
    lia.
Qed.

End ChannelGroupFacts.

(** C1. [clashesWith] is false when either group has no channels;
    otherwise it is true exactly when the ranges [[base, base+count)] of
    the two groups share a channel index.  Two non-empty groups with the
    same base clash whatever their counts, groups that abut exactly
    ([base2 = base + count]) do not clash, (0,2) against (2,2) gives
    false and (0,2) against (1,2) gives true. *)
Theorem clashesWith_spec (g other : ChannelGroup.t) :
  ChannelGroup.wf g -> ChannelGroup.wf other ->
  (ChannelGroup.m_channels g = 0 \/ ChannelGroup.m_channels other = 0 ->
   ChannelGroup.clashesWith g other = false)
  /\ (ChannelGroup.m_channels g <> 0 -> ChannelGroup.m_channels other <> 0 ->
      (ChannelGroup.clashesWith g other = true <-> ChannelGroup.overlap g other))
  /\ (0 < ChannelGroup.m_channels g -> 0 < ChannelGroup.m_channels other ->
      ChannelGroup.m_channelBase g = ChannelGroup.m_channelBase other ->
      ChannelGroup.clashesWith g other = true)
  /\ (ChannelGroup.m_channelBase other
        = ChannelGroup.m_channelBase g + ChannelGroup.m_channels g ->
      ChannelGroup.clashesWith g other = false)
  /\ ChannelGroup.clashesWith (ChannelGroup.new 0 2) (ChannelGroup.new 2 2) = false
  /\ ChannelGroup.clashesWith (ChannelGroup.new 0 2) (ChannelGroup.new 1 2) = true.
Proof.
  intros Hg Ho.
  pose proof (clashesWith_overlap g other Hg Ho) as Hov.
  pose proof (clashesWith_true_iff g other) as Hiff.
  destruct Hg as [Hb Hc], Ho as [Hb' Hc']. unfold uchar in *.
  repeat split.
  - intros Hz. apply not_true_is_false. rewrite Hiff. lia.
  - intros Hcl. apply Hov in Hcl. tauto.
  - intros Hcl. apply Hov. tauto.
  - intros Hp Hp' Heq. apply Hiff. lia.
  - intros Habut. apply not_true_is_false. rewrite Hiff. lia.
Qed.

Lemma clashesWith_spec_witness :
  ChannelGroup.wf (ChannelGroup.new 0 2)
  /\ ChannelGroup.wf (ChannelGroup.new 1 2)
  /\ (ChannelGroup.clashesWith (ChannelGroup.new 0 2) (ChannelGroup.new 1 2) = true
      <-> ChannelGroup.overlap (ChannelGroup.new 0 2) (ChannelGroup.new 1 2)).
Proof.
  assert (H0 : ChannelGroup.wf (ChannelGroup.new 0 2))
    by (unfold ChannelGroup.wf, uchar; simpl; lia).
  assert (H1 : ChannelGroup.wf (ChannelGroup.new 1 2))
    by (unfold ChannelGroup.wf, uchar; simpl; lia).
  split; [exact H0 |]. split; [exact H1 |].
  apply (clashesWith_spec (ChannelGroup.new 0 2) (ChannelGroup.new 1 2) H0 H1);
    simpl; lia.
Defined.

(** C8. The clash predicate is commutative: [a.clashesWith(b)] equals
    [b.clashesWith(a)] for every pair of groups. *)
Theorem clashesWith_comm (a b : ChannelGroup.t) :
  ChannelGroup.clashesWith a b = ChannelGroup.clashesWith b a.
Proof.
  apply eq_true_iff_eq.
  rewrite (clashesWith_true_iff a b), (clashesWith_true_iff b a).
  split; intros (H1 & H2 & H3); (split; [| split]); try assumption;
    destruct H3 as [H3 | [H3 | H3]]; auto.
Qed.

(** C9. [ChannelGroup::getHash] is [count * 256 + base] and is injective
    on the 8-bit (base, count) state: two groups have the same hash if and
    only if they are equal under [operator==]. *)
Theorem ChannelGroup_getHash_injective (g other : ChannelGroup.t) :
  ChannelGroup.wf g -> ChannelGroup.wf other ->
  ChannelGroup.getHash g
    = ChannelGroup.m_channels g * 256 + ChannelGroup.m_channelBase g
  /\ (ChannelGroup.getHash g = ChannelGroup.getHash other
      <-> ChannelGroup.eqb g other = true).
Proof.
  intros [Hb Hc] [Hb' Hc'].
  assert (Hv : forall h : ChannelGroup.t, ChannelGroup.wf h ->
    ChannelGroup.getHash h
      = ChannelGroup.m_channels h * 256 + ChannelGroup.m_channelBase h).
  { intros h [Hhb Hhc]. unfold ChannelGroup.getHash.
    apply hash_value; [unfold uchar in Hhc; lia | exact Hhb]. }
  split; [apply Hv; split; assumption |].
  rewrite !Hv by (split; assumption).
  unfold ChannelGroup.eqb. rewrite andb_true_iff, !Z.eqb_eq.
  unfold uchar in *. lia.
Qed.

Lemma ChannelGroup_getHash_injective_witness :
  ChannelGroup.wf (ChannelGroup.new 3 2)
  /\ ChannelGroup.wf (ChannelGroup.new 2 3)
  /\ ChannelGroup.getHash (ChannelGroup.new 3 2) = 2 * 256 + 3
  /\ (ChannelGroup.getHash (ChannelGroup.new 3 2)
        = ChannelGroup.getHash (ChannelGroup.new 2 3)
      <-> ChannelGroup.eqb (ChannelGroup.new 3 2) (ChannelGroup.new 2 3) = true).
Proof.
  assert (H0 : ChannelGroup.wf (ChannelGroup.new 3 2))
    by (unfold ChannelGroup.wf, uchar; simpl; lia).
  assert (H1 : ChannelGroup.wf (ChannelGroup.new 2 3))
    by (unfold ChannelGroup.wf, uchar; simpl; lia).
  split; [exact H0 |]. split; [exact H1 |].
  exact (ChannelGroup_getHash_injective
           (ChannelGroup.new 3 2) (ChannelGroup.new 2 3) H0 H1).
Defined.

(** C10. A group clashes with itself if and only if its count is greater
    than 0. *)
Theorem clashesWith_self (g : ChannelGroup.t) :
  ChannelGroup.wf g ->
  (ChannelGroup.clashesWith g g = true <-> 0 < ChannelGroup.m_channels g).
Proof.
  intros [_ Hc]. unfold uchar in Hc.
  rewrite clashesWith_true_iff. lia.
Qed.

Lemma clashesWith_self_witness :
  ChannelGroup.wf (ChannelGroup.new 4 1)
  /\ (ChannelGroup.clashesWith (ChannelGroup.new 4 1) (ChannelGroup.new 4 1) = true
      <-> 0 < ChannelGroup.m_channels (ChannelGroup.new 4 1)).
Proof.
  assert (H0 : ChannelGroup.wf (ChannelGroup.new 4 1))
    by (unfold ChannelGroup.wf, uchar; simpl; lia).
  split; [exact H0 |].
  exact (clashesWith_self (ChannelGroup.new 4 1) H0).
Defined.

(** ** Enumerator values *)

Section Ordinal.

Variable order : list AudioPathType.

Lemma ordinal_range (type : AudioPathType) :
  0 <= ordinal order type <= Z.of_nat (length order).
Proof.
  induction order as [| u rest IH]; simpl; [lia |].
  destruct (decide (u = type)); lia.
Qed.

Lemma ordinal_lookup (type : AudioPathType) :
  ordinal order type < Z.of_nat (length order) ->
  order !! Z.to_nat (ordinal order type) = Some type.
Proof.
  induction order as [| u rest IH]; simpl; [lia |].
  destruct (decide (u = type)) as [-> | Hne]; [reflexivity |].
  intros Hlt.
  assert (Hr : 0 <= ordinal rest type)
    by (clear -rest; induction rest as [| v r IHr]; simpl;
        [lia | destruct (decide (v = type)); lia]).
  replace (Z.to_nat (1 + ordinal rest type))
    with (S (Z.to_nat (ordinal rest type))) by lia.
  simpl. apply IH. lia.
Qed.

Lemma ordinal_elem_of (type : AudioPathType) :
  type ∈ order -> ordinal order type < Z.of_nat (length order).
Proof.
  induction order as [| u rest IH]; simpl.
  - intros H. inversion H.
  - intros H. destruct (decide (u = type)) as [-> | Hne]; [lia |].
    apply elem_of_cons in H. destruct H as [-> | H]; [congruence |].
    specialize (IH H). lia.
Qed.

Lemma lookup_ordinal (n : nat) (type : AudioPathType) :
  NoDup order -> order !! n = Some type -> ordinal order type = Z.of_nat n.
Proof.
  revert n. induction order as [| u rest IH]; intros n Hnd Hn.
  - discriminate.
  - apply NoDup_cons in Hnd. destruct Hnd as [Hnotin Hnd].
    destruct n as [| n]; simpl in *.
    + injection Hn as ->.
      destruct (decide _) as [_ | Hne]; [reflexivity | congruence].
    + destruct (decide (u = type)) as [-> | Hne].
      * exfalso. apply Hnotin. apply list_elem_of_lookup. eauto.
      * rewrite (IH n Hnd Hn). lia.
Qed.

(** Below the value of [INVALID] every [int] is an enumerator's value,
    so the cast in [getTypeFromInt] always names a variant. *)
Lemma getTypeFromInt_in_range (n : Z) :
  0 <= n < ordinal order INVALID ->
  enumerator order n = Some (AudioPath.getTypeFromInt order n).
Proof.
  intros Hn. unfold AudioPath.getTypeFromInt, enumerator.
  destruct (Z.ltb_spec n 0) as [? | _]; [lia |].
  destruct (Z.geb_spec n (ordinal order INVALID)) as [? | _]; [lia |].
  simpl.
  pose proof (ordinal_range INVALID) as Hr.
  destruct (lookup_lt_is_Some_2 order (Z.to_nat n)) as [type Ht]; [lia |].
  rewrite Ht. reflexivity.
Qed.

Lemma getTypeFromInt_out_of_range (n : Z) :
  n < 0 \/ n >= ordinal order INVALID ->
  AudioPath.getTypeFromInt order n = INVALID.
Proof.
  intros Hn. unfold AudioPath.getTypeFromInt.
  destruct (Z.ltb_spec n 0) as [? | ?]; [reflexivity |].
  destruct (Z.geb_spec n (ordinal order INVALID)) as [? | ?];
    [reflexivity | lia].
Qed.

End Ordinal.

Lemma enum_order_sentinel : enum_order sentinel_order.
Proof.
  split.
  - compute_done.
  - intros []; compute_done.
Qed.

Lemma enum_order_spec : enum_order spec_order.
Proof.
  split.
  - compute_done.
  - intros []; compute_done.
Qed.

(** ** AudioPathType conversions *)

(** C6, as stated, fails: with the order of section 3 of the
    specification ([INVALID] = 0, [BUS] = 3) the bound check of
    [getTypeFromInt] sends the value of [BUS] to [INVALID], not to
    [BUS]. *)
Lemma getTypeFromInt_spec_order_BUS :
  ordinal spec_order INVALID = 0
  /\ ordinal spec_order BUS = 3
  /\ AudioPath.getTypeFromInt spec_order (ordinal spec_order BUS) = INVALID
  /\ AudioPath.getTypeFromInt spec_order (ordinal spec_order BUS) <> BUS.
Proof. repeat split. vm_compute. discriminate. Qed.

(** C6, amended.  For every order of the enumerators, [getTypeFromInt n]
    is [INVALID] when [n] is negative or at least the value of [INVALID],
    and otherwise the variant whose value is [n]; -1 and the value of
    [INVALID] give [INVALID]; the value of [BUS] gives [BUS] exactly when
    [BUS] is listed before [INVALID], as it is when [INVALID] is the last
    enumerator.  When [INVALID] is 0, as in section 3 of the
    specification, every [n] gives [INVALID]. *)
Theorem getTypeFromInt_spec (order : list AudioPathType) :
  enum_order order ->
  (forall n : Z, n < 0 \/ n >= ordinal order INVALID ->
     AudioPath.getTypeFromInt order n = INVALID)
  /\ (forall n : Z, 0 <= n < ordinal order INVALID ->
        enumerator order n = Some (AudioPath.getTypeFromInt order n)
        /\ ordinal order (AudioPath.getTypeFromInt order n) = n)
  /\ AudioPath.getTypeFromInt order (-1) = INVALID
  /\ AudioPath.getTypeFromInt order (ordinal order INVALID) = INVALID
  /\ (AudioPath.getTypeFromInt order (ordinal order BUS) = BUS
      <-> ordinal order BUS < ordinal order INVALID)
  /\ (ordinal order INVALID = 0 ->
      forall n : Z, AudioPath.getTypeFromInt order n = INVALID)
  /\ (forall n : Z, AudioPath.getTypeFromInt spec_order n = INVALID)
  /\ AudioPath.getTypeFromInt sentinel_order (ordinal sentinel_order BUS) = BUS.
Proof.
  intros [Hnd Hall].
  assert (Hin : forall n : Z, 0 <= n < ordinal order INVALID ->
            enumerator order n = Some (AudioPath.getTypeFromInt order n)
            /\ ordinal order (AudioPath.getTypeFromInt order n) = n).
  { intros n Hn. pose proof (getTypeFromInt_in_range order n Hn) as He.
    split; [exact He |].
    unfold enumerator in He.
    destruct (Z.ltb_spec n 0) as [? | _]; [lia |].
    rewrite (lookup_ordinal order _ _ Hnd He). lia. }
  assert (Hzero : forall o : list AudioPathType, ordinal o INVALID = 0 ->
            forall n : Z, AudioPath.getTypeFromInt o n = INVALID).
  { intros o Ho n. apply getTypeFromInt_out_of_range. lia. }
  split; [apply getTypeFromInt_out_of_range |].
  split; [exact Hin |].
  split; [apply getTypeFromInt_out_of_range; lia |].
  split; [apply getTypeFromInt_out_of_range; lia |].
  split.
  { pose proof (ordinal_range order BUS) as Hr. split.
    - intros Hbus.
      destruct (Z.lt_ge_cases (ordinal order BUS) (ordinal order INVALID))
        as [Hlt | Hge]; [exact Hlt |].
      rewrite getTypeFromInt_out_of_range in Hbus by lia. discriminate.
    - intros Hlt.
      destruct (Hin (ordinal order BUS)) as [He _]; [lia |].
      unfold enumerator in He.
      destruct (Z.ltb_spec (ordinal order BUS) 0) as [? | _]; [lia |].
      rewrite (ordinal_lookup order BUS) in He
        by (apply ordinal_elem_of, Hall).
      congruence. }
  split; [apply Hzero |].
  split; [apply Hzero; reflexivity | reflexivity].
Qed.

Lemma getTypeFromInt_spec_witness :
  enum_order sentinel_order
  /\ AudioPath.getTypeFromInt sentinel_order (-1) = INVALID
  /\ AudioPath.getTypeFromInt sentinel_order (ordinal sentinel_order INVALID) = INVALID
  /\ (AudioPath.getTypeFromInt sentinel_order (ordinal sentinel_order BUS) = BUS
      <-> ordinal sentinel_order BUS < ordinal sentinel_order INVALID).
Proof.
  assert (H : enum_order sentinel_order)
    by (split; [compute_done | intros []; compute_done]).
  split; [exact H |].
  pose proof (getTypeFromInt_spec sentinel_order H) as (_ & _ & H1 & H2 & H3 & _).
  split; [exact H1 |]. split; [exact H2 | exact H3].
Defined.

(** ** AudioPath identity *)

(** C7. Two routes with equal type and equal index compare equal under
    [operator==] and have equal [getHash] values, whatever their channel
    groups; routes that differ in type or in index compare unequal. *)
Theorem AudioPath_eqb_hash (order : list AudioPathType) :
  (forall a b : AudioPath.t,
      AudioPath.m_type a = AudioPath.m_type b ->
      AudioPath.m_index a = AudioPath.m_index b ->
      AudioPath.eqb a b = true
      /\ AudioPath.getHash order a = AudioPath.getHash order b)
  /\ (forall (type : AudioPathType) (index : Z) (g g' : ChannelGroup.t),
        AudioPath.eqb (AudioPath.mk type index g) (AudioPath.mk type index g') = true
        /\ AudioPath.getHash order (AudioPath.mk type index g)
           = AudioPath.getHash order (AudioPath.mk type index g'))
  /\ (forall a b : AudioPath.t,
        AudioPath.m_type a <> AudioPath.m_type b
        \/ AudioPath.m_index a <> AudioPath.m_index b ->
        AudioPath.eqb a b = false).
Proof.
  assert (Heq : forall a b : AudioPath.t,
            AudioPath.eqb a b = true
            <-> AudioPath.m_type a = AudioPath.m_type b
                /\ AudioPath.m_index a = AudioPath.m_index b).
  { intros a b. unfold AudioPath.eqb, AudioPathType_eqb.
    rewrite andb_true_iff, bool_decide_eq_true, Z.eqb_eq. tauto. }
  split; [| split].
  - intros a b Ht Hi. split; [apply Heq; tauto |].
    unfold AudioPath.getHash. rewrite Ht, Hi. reflexivity.
  - intros type index g g'. split; [apply Heq; simpl; tauto | reflexivity].
  - intros a b Hne. apply not_true_is_false. rewrite Heq. tauto.
Qed.

Lemma contains_elem_of (types : list AudioPathType) (type : AudioPathType) :
  contains types type = true <-> type ∈ types.
Proof.
  unfold contains. rewrite existsb_exists. split.
  - intros (u & Hin & Heq). apply bool_decide_eq_true in Heq. subst u.
    apply list_elem_of_In. exact Hin.
  - intros Hin. exists type. split; [apply list_elem_of_In; exact Hin |].
    apply bool_decide_eq_true. reflexivity.
Qed.

(** C5. [getTypeFromString] inverts [getStringFromType] followed by
    lowercasing on every type other than [INVALID], and a string that
    matches no variant's name case-insensitively parses to [INVALID]. *)
Theorem getTypeFromString_spec :
  (forall type : AudioPathType, type <> INVALID ->
     AudioPath.getTypeFromString
       (QString.toLower (AudioPath.getStringFromType type)) = type)
  /\ (forall str : string,
        (forall type : AudioPathType,
           QString.toLower str
             <> QString.toLower (AudioPath.getStringFromType type)) ->
        AudioPath.getTypeFromString str = INVALID).
Proof.
  split.
  - intros [] _; reflexivity.
  - intros str Hno. unfold AudioPath.getTypeFromString.
    repeat match goal with
    | |- context [String.eqb ?a ?b] =>
        destruct (String.eqb_spec a b) as [Heq | _];
        [exfalso; eapply Hno; exact Heq |]
    end.
    reflexivity.
Qed.

(** ** Construction *)

Section Construction.

Variables (type : AudioPathType) (channelBase channels index : Z).

Lemma AudioOutput_new_eq :
  AudioOutput.new type channelBase channels index
  = AudioPath.mk
      (if contains AudioOutput.getSupportedTypes type then type else INVALID)
      (if AudioPath.isIndexed type then index else 0)
      (ChannelGroup.new channelBase channels).
Proof.
  unfold AudioOutput.new, AudioOutput.setType.
  destruct (contains _ type), (AudioPath.isIndexed type); reflexivity.
Qed.

Lemma AudioInput_new_eq (vinylcontrol : bool) :
  AudioInput.new vinylcontrol type channelBase channels index
  = AudioPath.mk
      (if contains (AudioInput.getSupportedTypes vinylcontrol) type
       then type else INVALID)
      (if AudioPath.isIndexed type then index else 0)
      (ChannelGroup.new channelBase channels).
Proof.
  unfold AudioInput.new, AudioInput.setType.
  destruct (contains _ type), (AudioPath.isIndexed type); reflexivity.
Qed.

End Construction.

(** C2 does not hold of the constructors: they test [isIndexed] on the
    [type] argument, not on the type left by [setType].  An output built
    from [VINYLCONTROL], and an input built from [BUS], has type
    [INVALID], which is not indexable, and keeps the index 5 it was
    given. *)
Theorem constructor_keeps_index_of_coerced_type :
  AudioPath.getType (AudioOutput.new VINYLCONTROL 0 2 5) = INVALID
  /\ AudioPath.isIndexed (AudioPath.getType (AudioOutput.new VINYLCONTROL 0 2 5)) = false
  /\ AudioPath.getIndex (AudioOutput.new VINYLCONTROL 0 2 5) = 5
  /\ (forall vinylcontrol : bool,
        AudioPath.getType (AudioInput.new vinylcontrol BUS 0 2 5) = INVALID
        /\ AudioPath.getIndex (AudioInput.new vinylcontrol BUS 0 2 5) = 5).
Proof.
  split; [reflexivity |]. split; [reflexivity |]. split; [reflexivity |].
  intros []; split; reflexivity.
Qed.

(** C4. An output built from [MICROPHONE] and an input built from
    [MASTER] have type [INVALID]; every type outside the direction's
    supported set (outputs: [MASTER], [HEADPHONES], [BUS], [DECK];
    inputs: [AUXILLIARY], [MICROPHONE], and [VINYLCONTROL] in a build with
    vinyl control) is coerced to [INVALID].  The constructors are total:
    the route exists for every argument and holds the channel group it
    was given. *)
Theorem constructor_coerces_unsupported_type :
  (forall channelBase channels index : Z,
     AudioPath.getType (AudioOutput.new MICROPHONE channelBase channels index)
     = INVALID)
  /\ (forall (vinylcontrol : bool) (channelBase channels index : Z),
        AudioPath.getType
          (AudioInput.new vinylcontrol MASTER channelBase channels index)
        = INVALID)
  /\ (forall (type : AudioPathType) (channelBase channels index : Z),
        type ∉ [MASTER; HEADPHONES; BUS; DECK] ->
        AudioPath.getType (AudioOutput.new type channelBase channels index)
        = INVALID)
  /\ (forall (vinylcontrol : bool) (type : AudioPathType)
             (channelBase channels index : Z),
        type ∉ [AUXILLIARY; MICROPHONE] ->
        ~ (vinylcontrol = true /\ type = VINYLCONTROL) ->
        AudioPath.getType
          (AudioInput.new vinylcontrol type channelBase channels index)
        = INVALID)
  /\ (forall (type : AudioPathType) (channelBase channels index : Z),
        AudioPath.getChannelGroup
          (AudioOutput.new type channelBase channels index)
        = ChannelGroup.new channelBase channels)
  /\ (forall (vinylcontrol : bool) (type : AudioPathType)
             (channelBase channels index : Z),
        AudioPath.getChannelGroup
          (AudioInput.new vinylcontrol type channelBase channels index)
        = ChannelGroup.new channelBase channels).
Proof.
  split; [reflexivity |].
  split; [intros []; reflexivity |].
  split.
  { intros type channelBase channels index Hout.
    rewrite AudioOutput_new_eq. simpl.
    destruct type; try reflexivity; exfalso; apply Hout; set_solver. }
  split.
  { intros vinylcontrol type channelBase channels index Hin Hvc.
    rewrite AudioInput_new_eq. simpl.
    destruct vinylcontrol, type; try reflexivity; exfalso;
      solve [apply Hin; set_solver | apply Hvc; split; reflexivity]. }
  split.
  - intros. rewrite AudioOutput_new_eq. reflexivity.
  - intros. rewrite AudioInput_new_eq. reflexivity.
Qed.

Lemma getTypeFromString_spec_witness :
  (forall type : AudioPathType,
     QString.toLower "Line In"
       <> QString.toLower (AudioPath.getStringFromType type))
  /\ AudioPath.getTypeFromString "Line In" = INVALID
  /\ AudioPath.getTypeFromString (QString.toLower "Vinyl Control") = VINYLCONTROL.
Proof.
  assert (H : forall type : AudioPathType,
             QString.toLower "Line In"
               <> QString.toLower (AudioPath.getStringFromType type))
    by (intros []; vm_compute; discriminate).
  split; [exact H |].
  destruct getTypeFromString_spec as [Hinv Hno].
  split; [exact (Hno "Line In" H) |].
  apply (Hinv VINYLCONTROL). discriminate.
Defined.

(** ** Persistence *)

Lemma toUInt_number (n : Z) :
  0 <= n < 2 ^ 32 -> QString.toUInt (QString.number n) = n.
Proof.
  intros Hn. unfold QString.toUInt, QString.number.
  pose proof (DecimalZ.of_to n) as Hof.
  destruct (Z.to_int n) as [d | d] eqn:Hd.
  - simpl in *.
    assert (Hnil : d <> Decimal.Nil).
    { destruct n as [| p | p]; simpl in Hd; try discriminate;
        injection Hd as <-.
      - discriminate.
      - intros Hp. pose proof (DecimalPos.Unsigned.of_to p) as Hpp.
        rewrite Hp in Hpp. discriminate. }
    rewrite NilZero.usu by exact Hnil. rewrite Hof.
    destruct (Z.ltb_spec n (2 ^ 32)); [reflexivity | lia].
  - destruct n as [| p | p]; simpl in Hd; try discriminate. lia.
Qed.

Lemma toUInt_number_uchar (n : Z) :
  uchar n -> to_uchar (QString.toUInt (QString.number n)) = n.
Proof.
  intros Hn. rewrite toUInt_number by (unfold uchar in Hn; lia).
  apply uchar_to_uchar. exact Hn.
Qed.

Lemma attribute_setAttribute_eq (name value defValue : string) (e : QDomElement.t) :
  QDomElement.attribute name defValue (QDomElement.setAttribute name value e)
  = value.
Proof.
  unfold QDomElement.attribute, QDomElement.setAttribute. simpl.
  rewrite lookup_insert_eq. reflexivity.
Qed.

Lemma attribute_setAttribute_ne (name name' value defValue : string)
    (e : QDomElement.t) :
  name <> name' ->
  QDomElement.attribute name' defValue (QDomElement.setAttribute name value e)
  = QDomElement.attribute name' defValue e.
Proof.
  intros Hne. unfold QDomElement.attribute, QDomElement.setAttribute. simpl.
  rewrite lookup_insert_ne by exact Hne. reflexivity.
Qed.

Lemma getTypeFromString_getStringFromType (type : AudioPathType) :
  AudioPath.getTypeFromString (AudioPath.getStringFromType type) = type.
Proof. destruct type; reflexivity. Qed.

(** The channel count that [fromXML] passes on: a count of 0 is read as
    a record written before counts were saved. *)
Lemma migrated_count (type : AudioPathType) (channels : Z) :
  uchar channels ->
  to_uchar (if channels =? 0
            then (if AudioPathType_eqb type MICROPHONE then 1 else 2)
            else channels)
  = (if channels =? 0
     then (if AudioPathType_eqb type MICROPHONE then 1 else 2)
     else channels).
Proof.
  intros Hc. apply uchar_to_uchar.
  destruct (channels =? 0); [| exact Hc].
  destruct (AudioPathType_eqb type MICROPHONE); unfold uchar; lia.
Qed.

Section RoundTrip.

Variables (p : AudioPath.t) (element : QDomElement.t).
Hypothesis Hwf : AudioPath.wf p.

Lemma AudioOutput_fromXML_toXML :
  AudioOutput.fromXML (AudioOutput.toXML p element)
  = AudioOutput.new (AudioPath.m_type p)
      (ChannelGroup.m_channelBase (AudioPath.m_channelGroup p))
      (if ChannelGroup.m_channels (AudioPath.m_channelGroup p) =? 0
       then (if AudioPathType_eqb (AudioPath.m_type p) MICROPHONE then 1 else 2)
       else ChannelGroup.m_channels (AudioPath.m_channelGroup p))
      (AudioPath.m_index p).
Proof.
  destruct Hwf as (Hi & Hb & Hc).
  unfold AudioOutput.fromXML, AudioOutput.toXML.
  cbv zeta.
  repeat first
    [ rewrite attribute_setAttribute_eq
    | rewrite attribute_setAttribute_ne by discriminate ].
  rewrite getTypeFromString_getStringFromType.
  unfold ChannelGroup.getChannelBase, ChannelGroup.getChannelCount.
  rewrite (toUInt_number (ChannelGroup.m_channels _))
    by (unfold uchar in Hc; lia).
  rewrite migrated_count by exact Hc.
  rewrite !toUInt_number_uchar by assumption.
  reflexivity.
Qed.

Lemma AudioInput_fromXML_toXML (vinylcontrol : bool) :
  AudioInput.fromXML vinylcontrol (AudioInput.toXML p element)
  = AudioInput.new vinylcontrol (AudioPath.m_type p)
      (ChannelGroup.m_channelBase (AudioPath.m_channelGroup p))
      (if ChannelGroup.m_channels (AudioPath.m_channelGroup p) =? 0
       then (if AudioPathType_eqb (AudioPath.m_type p) MICROPHONE then 1 else 2)
       else ChannelGroup.m_channels (AudioPath.m_channelGroup p))
      (AudioPath.m_index p).
Proof.
  destruct Hwf as (Hi & Hb & Hc).
  unfold AudioInput.fromXML, AudioInput.toXML.
  cbv zeta.
  repeat first
    [ rewrite attribute_setAttribute_eq
    | rewrite attribute_setAttribute_ne by discriminate ].
  rewrite getTypeFromString_getStringFromType.
  unfold ChannelGroup.getChannelBase, ChannelGroup.getChannelCount.
  rewrite (toUInt_number (ChannelGroup.m_channels _))
    by (unfold uchar in Hc; lia).
  rewrite migrated_count by exact Hc.
  rewrite !toUInt_number_uchar by assumption.
  reflexivity.
Qed.

End RoundTrip.

Lemma AudioPath_wf_mk (type : AudioPathType) (index channelBase channels : Z) :
  uchar index -> uchar channelBase -> uchar channels ->
  AudioPath.wf (AudioPath.mk type index (ChannelGroup.new channelBase channels)).
Proof. intros Hi Hb Hc. split; [exact Hi |]. split; [exact Hb | exact Hc]. Qed.

(** C3. For a route constructed from a type that its direction supports,
    [toXML] followed by [fromXML] gives back the same type, index and
    channel group, except that a channel count of 0 comes back as 1 for
    [MICROPHONE] and as 2 for every other type.  This holds whatever the
    element held before [toXML] wrote into it. *)
Theorem toXML_fromXML_roundtrip
    (type : AudioPathType) (channelBase channels index : Z)
    (element : QDomElement.t) :
  uchar channelBase -> uchar channels -> uchar index ->
  (type ∈ AudioOutput.getSupportedTypes ->
   let p := AudioOutput.new type channelBase channels index in
   let q := AudioOutput.fromXML (AudioOutput.toXML p element) in
   AudioPath.getType q = AudioPath.getType p
   /\ AudioPath.getIndex q = AudioPath.getIndex p
   /\ AudioPath.getChannelGroup q
      = ChannelGroup.new channelBase
          (if channels =? 0
           then (if AudioPathType_eqb type MICROPHONE then 1 else 2)
           else channels)
   /\ (channels <> 0 -> q = p))
  /\ (forall vinylcontrol : bool,
        type ∈ AudioInput.getSupportedTypes vinylcontrol ->
        let p := AudioInput.new vinylcontrol type channelBase channels index in
        let q := AudioInput.fromXML vinylcontrol (AudioInput.toXML p element) in
        AudioPath.getType q = AudioPath.getType p
        /\ AudioPath.getIndex q = AudioPath.getIndex p
        /\ AudioPath.getChannelGroup q
           = ChannelGroup.new channelBase
               (if channels =? 0
                then (if AudioPathType_eqb type MICROPHONE then 1 else 2)
                else channels)
        /\ (channels <> 0 -> q = p)).
Proof.
  intros Hb Hc Hi.
  assert (Hidx : uchar (if AudioPath.isIndexed type then index else 0))
    by (destruct (AudioPath.isIndexed type); [exact Hi | unfold uchar; lia]).
  split.
  - intros Hsup p q.
    apply contains_elem_of in Hsup.
    assert (Hp : p = AudioPath.mk type
                       (if AudioPath.isIndexed type then index else 0)
                       (ChannelGroup.new channelBase channels)).
    { unfold p. rewrite AudioOutput_new_eq, Hsup. reflexivity. }
    assert (Hq : q = AudioPath.mk type
                       (if AudioPath.isIndexed type then index else 0)
                       (ChannelGroup.new channelBase
                          (if channels =? 0
                           then (if AudioPathType_eqb type MICROPHONE then 1 else 2)
                           else channels))).
    { unfold q. rewrite AudioOutput_fromXML_toXML
        by (rewrite Hp; apply AudioPath_wf_mk; assumption).
      rewrite Hp. simpl. rewrite AudioOutput_new_eq, Hsup.
      destruct (AudioPath.isIndexed type); reflexivity. }
    rewrite Hp, Hq. simpl. repeat split.
    intros Hnz. apply Z.eqb_neq in Hnz. rewrite Hnz. reflexivity.
  - intros vinylcontrol Hsup p q.
    apply contains_elem_of in Hsup.
    assert (Hp : p = AudioPath.mk type
                       (if AudioPath.isIndexed type then index else 0)
                       (ChannelGroup.new channelBase channels)).
    { unfold p. rewrite AudioInput_new_eq, Hsup. reflexivity. }
    assert (Hq : q = AudioPath.mk type
                       (if AudioPath.isIndexed type then index else 0)
                       (ChannelGroup.new channelBase
                          (if channels =? 0
                           then (if AudioPathType_eqb type MICROPHONE then 1 else 2)
                           else channels))).
    { unfold q. rewrite AudioInput_fromXML_toXML
        by (rewrite Hp; apply AudioPath_wf_mk; assumption).
      rewrite Hp. simpl. rewrite AudioInput_new_eq, Hsup.
      destruct (AudioPath.isIndexed type); reflexivity. }
    rewrite Hp, Hq. simpl. repeat split.
    intros Hnz. apply Z.eqb_neq in Hnz. rewrite Hnz. reflexivity.
Qed.

Lemma toXML_fromXML_roundtrip_witness :
  uchar 4 /\ uchar 0 /\ uchar 1
  /\ BUS ∈ AudioOutput.getSupportedTypes
  /\ MICROPHONE ∈ AudioInput.getSupportedTypes false
  /\ AudioPath.getChannelGroup
       (AudioOutput.fromXML
          (AudioOutput.toXML (AudioOutput.new BUS 4 0 1) (QDomElement.mk "" ∅)))
     = ChannelGroup.new 4 2
  /\ AudioPath.getIndex
       (AudioOutput.fromXML
          (AudioOutput.toXML (AudioOutput.new BUS 4 0 1) (QDomElement.mk "" ∅)))
     = 1
  /\ AudioPath.getChannelGroup
       (AudioInput.fromXML false
          (AudioInput.toXML (AudioInput.new false MICROPHONE 4 0 1)
             (QDomElement.mk "" ∅)))
     = ChannelGroup.new 4 1.
Proof.
  assert (H4 : uchar 4) by (unfold uchar; lia).
  assert (H0 : uchar 0) by (unfold uchar; lia).
  assert (H1 : uchar 1) by (unfold uchar; lia).
  assert (Hout : BUS ∈ AudioOutput.getSupportedTypes) by compute_done.
  assert (Hin : MICROPHONE ∈ AudioInput.getSupportedTypes false) by compute_done.
  split; [exact H4 |]. split; [exact H0 |]. split; [exact H1 |].
  split; [exact Hout |]. split; [exact Hin |].
  destruct (toXML_fromXML_roundtrip BUS 4 0 1 (QDomElement.mk "" ∅) H4 H0 H1)
    as [Ho _].
  destruct (toXML_fromXML_roundtrip MICROPHONE 4 0 1 (QDomElement.mk "" ∅) H4 H0 H1)
    as [_ Hi].
  destruct (Ho Hout) as (_ & Hoi & Hog & _).
  destruct (Hi false Hin) as (_ & _ & Hig & _).
  split; [exact Hog |]. split; [exact Hoi | exact Hig].
Defined.

(** A route whose type was coerced to [INVALID] is written as "Invalid"
    and read back as [INVALID] with the same channels; its index comes
    back as 0, so an index that the constructor kept for a type it
    coerced is not reproduced. *)
Lemma roundtrip_of_coerced_route :
  AudioOutput.fromXML
    (AudioOutput.toXML (AudioOutput.new MICROPHONE 0 2 5) (QDomElement.mk "" ∅))
  = AudioOutput.new MICROPHONE 0 2 5
  /\ AudioOutput.new VINYLCONTROL 0 2 5
     = AudioPath.mk INVALID 5 (ChannelGroup.new 0 2)
  /\ AudioOutput.fromXML
       (AudioOutput.toXML (AudioOutput.new VINYLCONTROL 0 2 5) (QDomElement.mk "" ∅))
     = AudioPath.mk INVALID 0 (ChannelGroup.new 0 2).
Proof.
  assert (Hwf : forall i : Z, uchar i ->
            AudioPath.wf (AudioPath.mk INVALID i (ChannelGroup.new 0 2)))
    by (intros i Hi; apply AudioPath_wf_mk; [exact Hi | |]; unfold uchar; lia).
  split; [| split].
  - change (AudioOutput.new MICROPHONE 0 2 5)
      with (AudioPath.mk INVALID 0 (ChannelGroup.new 0 2)).
    rewrite AudioOutput_fromXML_toXML by (apply Hwf; unfold uchar; lia).
    reflexivity.
  - reflexivity.
  - change (AudioOutput.new VINYLCONTROL 0 2 5)
      with (AudioPath.mk INVALID 5 (ChannelGroup.new 0 2)).
    rewrite AudioOutput_fromXML_toXML by (apply Hwf; unfold uchar; lia).
    reflexivity.
Qed.

(** ** Worked values *)

Example clash_abut :
  ChannelGroup.clashesWith (ChannelGroup.new 0 2) (ChannelGroup.new 2 2) = false.
Proof. reflexivity. Qed.

Example clash_shift :
  ChannelGroup.clashesWith (ChannelGroup.new 0 2) (ChannelGroup.new 1 2) = true.
Proof. reflexivity. Qed.

Example clash_top_of_range :
  ChannelGroup.clashesWith (ChannelGroup.new 254 2) (ChannelGroup.new 255 255) = true.
Proof. reflexivity. Qed.

Example hash_3_2 : ChannelGroup.getHash (ChannelGroup.new 3 2) = 515.
Proof. reflexivity. Qed.

Example number_255 : QString.number 255 = "255".
Proof. reflexivity. Qed.

Example toUInt_garbage : QString.toUInt "12a" = 0.
Proof. reflexivity. Qed.

Example toUInt_too_large : QString.toUInt "4294967296" = 0.
Proof. reflexivity. Qed.

Example parse_mixed_case : AudioPath.getTypeFromString "vInYl CoNtRoL" = VINYLCONTROL.
Proof. reflexivity. Qed.

Example toXML_deck :
  AudioOutput.toXML (AudioOutput.new DECK 2 2 1) (QDomElement.mk "" ∅)
  = QDomElement.mk "output"
      (<["channel_count" := "2"]>
         (<["channel" := "2"]> (<["index" := "1"]> (<["type" := "Deck"]> ∅)))).
Proof. reflexivity. Qed.

Example fromXML_legacy_microphone :
  AudioInput.fromXML true
    (QDomElement.mk "input" (<["type" := "Microphone"]> ∅))
  = AudioPath.mk MICROPHONE 0 (ChannelGroup.new 0 1).
Proof. reflexivity. Qed.

(** * Further properties *)

(** ** Enumerator values and the route hash *)

Lemma ordinal_inj (order : list AudioPathType) (type type' : AudioPathType) :
  type ∈ order -> ordinal order type = ordinal order type' -> type = type'.
Proof.
  intros Hin Heq.
  pose proof (ordinal_elem_of order type Hin) as Hlt.
  pose proof (ordinal_lookup order type Hlt) as Hl.
  rewrite Heq in Hl, Hlt.
  rewrite (ordinal_lookup order type' Hlt) in Hl. congruence.
Qed.

Lemma enum_order_length (order : list AudioPathType) :
  enum_order order -> length order = 8%nat.
Proof.
  intros [Hnd Hall].
  destruct enum_order_sentinel as [Hnd' Hall'].
  apply Nat.le_antisymm.
  - change 8%nat with (length sentinel_order).
    apply submseteq_length, NoDup_submseteq; [exact Hnd | auto].
  - change 8%nat with (length sentinel_order).
    apply submseteq_length, NoDup_submseteq; [exact Hnd' | auto].
Qed.

(** X1. For 8-bit indices and any numbering of the enum,
    [AudioPath::getHash] is [type * 256 + index], and two routes have the
    same hash if and only if [operator==] holds of them. *)
Theorem AudioPath_getHash_injective
    (order : list AudioPathType) (a b : AudioPath.t) :
  enum_order order ->
  uchar (AudioPath.m_index a) -> uchar (AudioPath.m_index b) ->
  AudioPath.getHash order a
    = ordinal order (AudioPath.m_type a) * 256 + AudioPath.m_index a
  /\ (AudioPath.getHash order a = AudioPath.getHash order b
      <-> AudioPath.eqb a b = true).
Proof.
  intros Horder Ha Hb.
  pose proof (enum_order_length order Horder) as Hlen.
  destruct Horder as [Hnd Hall].
  assert (Hv : forall p : AudioPath.t, uchar (AudioPath.m_index p) ->
    AudioPath.getHash order p
      = ordinal order (AudioPath.m_type p) * 256 + AudioPath.m_index p).
  { intros p Hp. unfold AudioPath.getHash. apply hash_value; [| exact Hp].
    pose proof (ordinal_range order (AudioPath.m_type p)). lia. }
  split; [apply Hv; exact Ha |].
  rewrite !Hv by assumption.
  unfold AudioPath.eqb, AudioPathType_eqb.
  rewrite andb_true_iff, bool_decide_eq_true, Z.eqb_eq.
  pose proof (ordinal_range order (AudioPath.m_type a)).
  pose proof (ordinal_range order (AudioPath.m_type b)).
  unfold uchar in *. split.
  - intros Heq.
    assert (Ho : ordinal order (AudioPath.m_type a)
                 = ordinal order (AudioPath.m_type b)) by lia.
    split; [| lia]. apply (ordinal_inj order); [apply Hall | exact Ho].
  - intros [-> ->]. reflexivity.
Qed.

Lemma AudioPath_getHash_injective_witness :
  enum_order sentinel_order
  /\ uchar 1 /\ uchar 0
  /\ AudioPath.getHash sentinel_order (AudioOutput.new DECK 0 2 1) = 3 * 256 + 1
  /\ (AudioPath.getHash sentinel_order (AudioOutput.new DECK 0 2 1)
        = AudioPath.getHash sentinel_order (AudioOutput.new DECK 2 2 0)
      <-> AudioPath.eqb (AudioOutput.new DECK 0 2 1) (AudioOutput.new DECK 2 2 0)
          = true).
Proof.
  assert (H : enum_order sentinel_order)
    by (split; [compute_done | intros []; compute_done]).
  assert (H1 : uchar 1) by (unfold uchar; lia).
  assert (H0 : uchar 0) by (unfold uchar; lia).
  split; [exact H |]. split; [exact H1 |]. split; [exact H0 |].
  exact (AudioPath_getHash_injective sentinel_order
           (AudioOutput.new DECK 0 2 1) (AudioOutput.new DECK 2 2 0) H H1 H0).
Defined.

(** X2. [getTypeFromInt] gives back the type whose value it is handed
    exactly when that value does not exceed the value of [INVALID]; with
    [INVALID] as the largest enumerator it inverts the enum-to-int
    conversion on every type. *)
Theorem getTypeFromInt_ordinal (order : list AudioPathType) (type : AudioPathType) :
  enum_order order ->
  (AudioPath.getTypeFromInt order (ordinal order type) = type
   <-> ordinal order type <= ordinal order INVALID).
Proof.
  intros [Hnd Hall].
  pose proof (ordinal_range order type) as Hr.
  destruct (decide (type = INVALID)) as [-> | Hne].
  { rewrite getTypeFromInt_out_of_range by lia. split; [lia | reflexivity]. }
  destruct (Z.lt_ge_cases (ordinal order type) (ordinal order INVALID))
    as [Hlt | Hge].
  - split; [lia | intros _].
    pose proof (getTypeFromInt_in_range order (ordinal order type)) as He.
    unfold enumerator in He.
    destruct (Z.ltb_spec (ordinal order type) 0) as [? | _]; [lia |].
    rewrite (ordinal_lookup order type) in He by (apply ordinal_elem_of, Hall).
    specialize (He ltac:(lia)). congruence.
  - rewrite getTypeFromInt_out_of_range by lia. split.
    + intros Heq. congruence.
    + intros Hle. exfalso. apply Hne.
      apply (ordinal_inj order); [apply Hall | lia].
Qed.

Lemma getTypeFromInt_ordinal_witness :
  enum_order sentinel_order
  /\ (AudioPath.getTypeFromInt sentinel_order (ordinal sentinel_order AUXILLIARY)
        = AUXILLIARY
      <-> ordinal sentinel_order AUXILLIARY <= ordinal sentinel_order INVALID).
Proof.
  assert (H : enum_order sentinel_order)
    by (split; [compute_done | intros []; compute_done]).
  split; [exact H |].
  exact (getTypeFromInt_ordinal sentinel_order AUXILLIARY H).
Defined.

(** ** Names and labels *)

Lemma toLower_char_idemp (c : ascii) :
  QString.toLower_char (QString.toLower_char c) = QString.toLower_char c.
Proof. destruct c as [[] [] [] [] [] [] [] []]; reflexivity. Qed.

Lemma toLower_idemp (s : string) :
  QString.toLower (QString.toLower s) = QString.toLower s.
Proof.
  induction s as [| c rest IH]; simpl; [reflexivity |].
  rewrite toLower_char_idemp, IH. reflexivity.
Qed.

Lemma getTypeFromString_toLower_eq (s s' : string) :
  QString.toLower s = QString.toLower s' ->
  AudioPath.getTypeFromString s = AudioPath.getTypeFromString s'.
Proof. intros H. unfold AudioPath.getTypeFromString. rewrite H. reflexivity. Qed.

(** X3. [getTypeFromString] is case-insensitive: two strings that are
    equal after lowercasing parse to the same type, and lowercasing a
    string before parsing it changes nothing. *)
Theorem getTypeFromString_case_insensitive :
  (forall s s' : string,
     QString.toLower s = QString.toLower s' ->
     AudioPath.getTypeFromString s = AudioPath.getTypeFromString s')
  /\ (forall s : string,
        AudioPath.getTypeFromString (QString.toLower s)
        = AudioPath.getTypeFromString s).
Proof.
  split; [exact getTypeFromString_toLower_eq |].
  intros s. apply getTypeFromString_toLower_eq, toLower_idemp.
Qed.

(** X4. The canonical names stay pairwise distinct after lowercasing:
    no string matches two types. *)
Theorem getStringFromType_toLower_inj (type type' : AudioPathType) :
  QString.toLower (AudioPath.getStringFromType type)
    = QString.toLower (AudioPath.getStringFromType type') ->
  type = type'.
Proof.
  intros H. destruct type, type'; try reflexivity; vm_compute in H;
    discriminate H.
Qed.

Lemma getStringFromType_toLower_inj_witness :
  QString.toLower (AudioPath.getStringFromType DECK)
    = QString.toLower (AudioPath.getStringFromType DECK)
  /\ DECK = DECK.
Proof.
  split; [reflexivity |].
  exact (getStringFromType_toLower_inj DECK DECK eq_refl).
Defined.

(** X5. A string parses to a type other than [INVALID] exactly when it
    equals that type's canonical name up to case. *)
Theorem getTypeFromString_exact (s : string) (type : AudioPathType) :
  type <> INVALID ->
  (AudioPath.getTypeFromString s = type
   <-> QString.toLower s = QString.toLower (AudioPath.getStringFromType type)).
Proof.
  intros Hne. split.
  - unfold AudioPath.getTypeFromString.
    repeat match goal with
    | |- context [String.eqb ?a ?b] =>
        destruct (String.eqb_spec a b) as [Heq | _];
        [intros <-; exact Heq |]
    end.
    intros <-. congruence.
  - intros H. rewrite (getTypeFromString_toLower_eq _ _ H).
    apply getTypeFromString_getStringFromType.
Qed.

Lemma getTypeFromString_exact_witness :
  HEADPHONES <> INVALID
  /\ (AudioPath.getTypeFromString "HEADphones" = HEADPHONES
      <-> QString.toLower "HEADphones"
          = QString.toLower (AudioPath.getStringFromType HEADPHONES)).
Proof.
  assert (H : HEADPHONES <> INVALID) by discriminate.
  split; [exact H |].
  exact (getTypeFromString_exact "HEADphones" HEADPHONES H).
Defined.

Lemma string_app_inv_head (a x y : string) :
  (a ++ x)%string = (a ++ y)%string -> x = y.
Proof.
  induction a as [| c rest IH]; simpl; [tauto |].
  intros [= H]. apply IH, H.
Qed.

Lemma number_inj (n m : Z) :
  0 <= n < 2 ^ 32 -> 0 <= m < 2 ^ 32 ->
  QString.number n = QString.number m -> n = m.
Proof.
  intros Hn Hm H. rewrite <- (toUInt_number n Hn), <- (toUInt_number m Hm), H.
  reflexivity.
Qed.

(** X6. For [DECK], [VINYLCONTROL] and [AUXILLIARY] the label shown to
    the user ends in [index + 1], counted without wrap-around (index 255
    is shown as 256), and under every translation two different 8-bit
    indices give two different labels. *)
Theorem getTrStringFromType_index
    (tr : string -> string) (o : EngineChannel.ChannelOrientation)
    (type : AudioPathType) (index index' : Z) :
  type = DECK \/ type = VINYLCONTROL \/ type = AUXILLIARY ->
  uchar index -> uchar index' ->
  AudioPath.getTrStringFromType tr o type index
    = (tr (AudioPath.getStringFromType type) ++ " "
       ++ QString.number (index + 1))%string
  /\ (AudioPath.getTrStringFromType tr o type index
        = AudioPath.getTrStringFromType tr o type index'
      -> index = index')
  /\ AudioPath.getTrStringFromType tr o type 255
     = (tr (AudioPath.getStringFromType type) ++ " 256")%string.
Proof.
  intros Htype Hi Hi'. unfold uchar in *.
  assert (Hlabel : forall i : Z,
    AudioPath.getTrStringFromType tr o type i
    = (tr (AudioPath.getStringFromType type) ++ " "
       ++ QString.number (i + 1))%string).
  { intros i. destruct Htype as [-> | [-> | ->]]; reflexivity. }
  split; [apply Hlabel |]. split.
  - rewrite !Hlabel. intros H.
    apply string_app_inv_head in H. simpl in H. injection H as H.
    apply number_inj in H; lia.
  - rewrite Hlabel. reflexivity.
Qed.

Lemma getTrStringFromType_index_witness :
  (DECK = DECK \/ DECK = VINYLCONTROL \/ DECK = AUXILLIARY)
  /\ uchar 0 /\ uchar 1
  /\ AudioPath.getTrStringFromType (fun s => s)
       (EngineChannel.orientation 0 1 2) DECK 0
     = "Deck 1".
Proof.
  assert (Ht : DECK = DECK \/ DECK = VINYLCONTROL \/ DECK = AUXILLIARY)
    by (left; reflexivity).
  assert (H0 : uchar 0) by (unfold uchar; lia).
  assert (H1 : uchar 1) by (unfold uchar; lia).
  split; [exact Ht |]. split; [exact H0 |]. split; [exact H1 |].
  destruct (getTrStringFromType_index (fun s => s)
              (EngineChannel.orientation 0 1 2) DECK 0 1 Ht H0 H1)
    as (Hlabel & _ & _).
  exact Hlabel.
Defined.

(** ** Constructed routes *)

(** X7. A constructor keeps a type that its direction supports, and the
    type of the route it builds differs from [INVALID] exactly when the
    type it was given is supported. *)
Theorem constructor_keeps_supported_type
    (type : AudioPathType) (channelBase channels index : Z) :
  (type ∈ AudioOutput.getSupportedTypes ->
   AudioPath.getType (AudioOutput.new type channelBase channels index) = type)
  /\ (AudioPath.getType (AudioOutput.new type channelBase channels index)
        <> INVALID
      <-> type ∈ AudioOutput.getSupportedTypes)
  /\ (forall vinylcontrol : bool,
        (type ∈ AudioInput.getSupportedTypes vinylcontrol ->
         AudioPath.getType
           (AudioInput.new vinylcontrol type channelBase channels index)
         = type)
        /\ (AudioPath.getType
              (AudioInput.new vinylcontrol type channelBase channels index)
              <> INVALID
            <-> type ∈ AudioInput.getSupportedTypes vinylcontrol)).
Proof.
  split; [| split].
  - intros Hsup. apply contains_elem_of in Hsup.
    rewrite AudioOutput_new_eq. unfold AudioPath.getType.
    cbn [AudioPath.m_type]. rewrite Hsup. reflexivity.
  - rewrite AudioOutput_new_eq, <- contains_elem_of. simpl.
    destruct type; simpl; split; congruence.
  - intros vinylcontrol. split.
    + intros Hsup. apply contains_elem_of in Hsup.
      rewrite AudioInput_new_eq. unfold AudioPath.getType.
      cbn [AudioPath.m_type]. rewrite Hsup. reflexivity.
    + rewrite AudioInput_new_eq, <- contains_elem_of. simpl.
      destruct vinylcontrol, type; simpl; split; congruence.
Qed.

(** X8. In a constructed route whose type is not [INVALID], the index is
    the one given when the route's type is indexable and 0 when it is
    not. *)
Theorem constructor_index_of_valid_route
    (type : AudioPathType) (channelBase channels index : Z) :
  (AudioPath.getType (AudioOutput.new type channelBase channels index)
     <> INVALID ->
   AudioPath.getIndex (AudioOutput.new type channelBase channels index)
   = if AudioPath.isIndexed
          (AudioPath.getType (AudioOutput.new type channelBase channels index))
     then index else 0)
  /\ (forall vinylcontrol : bool,
        AudioPath.getType
          (AudioInput.new vinylcontrol type channelBase channels index)
          <> INVALID ->
        AudioPath.getIndex
          (AudioInput.new vinylcontrol type channelBase channels index)
        = if AudioPath.isIndexed
               (AudioPath.getType
                  (AudioInput.new vinylcontrol type channelBase channels index))
          then index else 0).
Proof.
  split.
  - rewrite AudioOutput_new_eq.
    unfold AudioPath.getType, AudioPath.getIndex.
    cbn [AudioPath.m_type AudioPath.m_index].
    destruct (contains AudioOutput.getSupportedTypes type);
      [reflexivity | congruence].
  - intros vinylcontrol. rewrite AudioInput_new_eq.
    unfold AudioPath.getType, AudioPath.getIndex.
    cbn [AudioPath.m_type AudioPath.m_index].
    destruct (contains (AudioInput.getSupportedTypes vinylcontrol) type);
      [reflexivity | congruence].
Qed.

(** ** Reading records *)


(** X10. The channel count of the route that [fromXML] builds is the
    record's [channel_count] modulo 256 when that number is not 0, so it
    is 0 exactly for the nonzero multiples of 256: the replacement of a
    zero count is decided before the number is narrowed to 8 bits. *)
Theorem fromXML_channel_count (xml : QDomElement.t) :
  let n := QString.toUInt (QDomElement.attribute "channel_count" "0" xml) in
  (n <> 0 ->
   ChannelGroup.getChannelCount
     (AudioPath.getChannelGroup (AudioOutput.fromXML xml)) = n mod 256)
  /\ (ChannelGroup.getChannelCount
        (AudioPath.getChannelGroup (AudioOutput.fromXML xml)) = 0
      <-> n <> 0 /\ n mod 256 = 0)
  /\ (forall vinylcontrol : bool,
        (n <> 0 ->
         ChannelGroup.getChannelCount
           (AudioPath.getChannelGroup (AudioInput.fromXML vinylcontrol xml))
         = n mod 256)
        /\ (ChannelGroup.getChannelCount
              (AudioPath.getChannelGroup (AudioInput.fromXML vinylcontrol xml))
            = 0
            <-> n <> 0 /\ n mod 256 = 0)).
Proof.
  intros n.
  assert (Hcount : forall b : bool,
    (n <> 0 ->
     to_uchar (if n =? 0 then (if b then 1 else 2) else n) = n mod 256)
    /\ (to_uchar (if n =? 0 then (if b then 1 else 2) else n) = 0
        <-> n <> 0 /\ n mod 256 = 0)).
  { intros b. unfold to_uchar.
    destruct (Z.eqb_spec n 0) as [Hz | Hnz].
    - split; [congruence |]. destruct b; simpl; split; [discriminate | tauto |
        discriminate | tauto].
    - split; [reflexivity | tauto]. }
  split; [| split].
  - unfold AudioOutput.fromXML. cbv zeta. rewrite AudioOutput_new_eq. simpl.
    apply Hcount.
  - unfold AudioOutput.fromXML. cbv zeta. rewrite AudioOutput_new_eq. simpl.
    apply Hcount.
  - intros vinylcontrol.
    unfold AudioInput.fromXML. cbv zeta. rewrite AudioInput_new_eq. simpl.
    apply Hcount.
Qed.

(** X11. A record whose [channel_count] is missing, unreadable or 0 loads
    with a channel count that [minChannelsForType] and
    [maxChannelsForType] allow for the type of the route built. *)
Theorem fromXML_legacy_count_allowed (xml : QDomElement.t) :
  QString.toUInt (QDomElement.attribute "channel_count" "0" xml) = 0 ->
  (AudioPath.minChannelsForType (AudioPath.getType (AudioOutput.fromXML xml))
     <= ChannelGroup.getChannelCount
          (AudioPath.getChannelGroup (AudioOutput.fromXML xml))
     <= AudioPath.maxChannelsForType (AudioPath.getType (AudioOutput.fromXML xml)))
  /\ (forall vinylcontrol : bool,
        AudioPath.minChannelsForType
          (AudioPath.getType (AudioInput.fromXML vinylcontrol xml))
        <= ChannelGroup.getChannelCount
             (AudioPath.getChannelGroup (AudioInput.fromXML vinylcontrol xml))
        <= AudioPath.maxChannelsForType
             (AudioPath.getType (AudioInput.fromXML vinylcontrol xml))).
Proof.
  intros Hz. split.
  - unfold AudioOutput.fromXML. cbv zeta. rewrite Hz, AudioOutput_new_eq.
    destruct (AudioPath.getTypeFromString _); vm_compute; split; discriminate.
  - intros vinylcontrol.
    unfold AudioInput.fromXML. cbv zeta. rewrite Hz, AudioInput_new_eq.
    destruct vinylcontrol, (AudioPath.getTypeFromString _);
      vm_compute; split; discriminate.
Qed.

Lemma fromXML_legacy_count_allowed_witness :
  QString.toUInt
    (QDomElement.attribute "channel_count" "0"
       (QDomElement.mk "input" (<["type" := "Vinyl Control"]> ∅))) = 0
  /\ ChannelGroup.getChannelCount
       (AudioPath.getChannelGroup
          (AudioInput.fromXML true
             (QDomElement.mk "input" (<["type" := "Vinyl Control"]> ∅))))
     = 2.
Proof.
  assert (H : QString.toUInt
                (QDomElement.attribute "channel_count" "0"
                   (QDomElement.mk "input" (<["type" := "Vinyl Control"]> ∅)))
              = 0) by reflexivity.
  split; [exact H |].
  destruct (fromXML_legacy_count_allowed
              (QDomElement.mk "input" (<["type" := "Vinyl Control"]> ∅)) H)
    as [_ Hin].
  specialize (Hin true).
  change (AudioPath.minChannelsForType
            (AudioPath.getType
               (AudioInput.fromXML true
                  (QDomElement.mk "input" (<["type" := "Vinyl Control"]> ∅)))))
    with 2 in Hin.
  change (AudioPath.maxChannelsForType
            (AudioPath.getType
               (AudioInput.fromXML true
                  (QDomElement.mk "input" (<["type" := "Vinyl Control"]> ∅)))))
    with 2 in Hin.
  lia.
Defined.

Lemma attribute_type_toXML (p : AudioPath.t) (element : QDomElement.t) :
  QDomElement.attribute "type" "" (AudioOutput.toXML p element)
    = AudioPath.getStringFromType (AudioPath.m_type p)
  /\ QDomElement.attribute "type" "" (AudioInput.toXML p element)
     = AudioPath.getStringFromType (AudioPath.m_type p).
Proof.
  unfold AudioOutput.toXML, AudioInput.toXML. cbv zeta.
  split;
    repeat first
      [ rewrite attribute_setAttribute_eq
      | rewrite attribute_setAttribute_ne by discriminate ];
    reflexivity.
Qed.

(** X12. [fromXML] does not look at the element's tag name, and no type
    is supported in both directions: a record written from any output
    reads as an input of type [INVALID], and a record written from any
    input reads as an output of type [INVALID]. *)
Theorem fromXML_other_direction :
  (forall (name : string) (xml : QDomElement.t),
     AudioOutput.fromXML (QDomElement.setTagName name xml)
       = AudioOutput.fromXML xml
     /\ forall vinylcontrol : bool,
          AudioInput.fromXML vinylcontrol (QDomElement.setTagName name xml)
          = AudioInput.fromXML vinylcontrol xml)
  /\ (forall (vinylcontrol : bool) (type : AudioPathType)
             (channelBase channels index : Z) (element : QDomElement.t),
        AudioPath.getType
          (AudioInput.fromXML vinylcontrol
             (AudioOutput.toXML
                (AudioOutput.new type channelBase channels index) element))
        = INVALID
        /\ AudioPath.getType
             (AudioOutput.fromXML
                (AudioInput.toXML
                   (AudioInput.new vinylcontrol type channelBase channels index)
                   element))
           = INVALID).
Proof.
  split.
  - intros name xml. split; [reflexivity | intros; reflexivity].
  - intros vinylcontrol type channelBase channels index element.
    unfold AudioInput.fromXML, AudioOutput.fromXML. cbv zeta.
    destruct (attribute_type_toXML
                (AudioOutput.new type channelBase channels index) element)
      as [-> _].
    destruct (attribute_type_toXML
                (AudioInput.new vinylcontrol type channelBase channels index)
                element)
      as [_ ->].
    rewrite !getTypeFromString_getStringFromType.
    rewrite AudioInput_new_eq, AudioOutput_new_eq.
    unfold AudioPath.getType. cbn [AudioPath.m_type].
    rewrite AudioInput_new_eq, AudioOutput_new_eq. cbn [AudioPath.m_type].
    destruct vinylcontrol, type; split; reflexivity.
Qed.

(** ** Writing records *)

Lemma toXML_attributes (p : AudioPath.t) (element : QDomElement.t) :
  QDomElement.attributes (AudioOutput.toXML p element)
    = QDomElement.attributes (AudioInput.toXML p element)
  /\ forall name : string,
       QDomElement.attributes (AudioOutput.toXML p element) !! name
       = if decide (name = "channel_count")
         then Some (QString.number
                      (ChannelGroup.m_channels (AudioPath.m_channelGroup p)))
         else if decide (name = "channel")
         then Some (QString.number
                      (ChannelGroup.m_channelBase (AudioPath.m_channelGroup p)))
         else if decide (name = "index")
         then Some (QString.number (AudioPath.m_index p))
         else if decide (name = "type")
         then Some (AudioPath.getStringFromType (AudioPath.m_type p))
         else QDomElement.attributes element !! name.
Proof.
  split; [reflexivity |].
  intros name. unfold AudioOutput.toXML, QDomElement.setAttribute. simpl.
  rewrite !lookup_insert.
  repeat case_decide; subst; first [reflexivity | congruence].
Qed.

(** X13. [toXML] overwrites what an earlier [toXML] wrote into the same
    element, in either direction: only the last route written remains. *)
Theorem toXML_last_write_wins (p q : AudioPath.t) (element : QDomElement.t) :
  AudioOutput.toXML p (AudioOutput.toXML q element) = AudioOutput.toXML p element
  /\ AudioOutput.toXML p (AudioInput.toXML q element) = AudioOutput.toXML p element
  /\ AudioInput.toXML p (AudioOutput.toXML q element) = AudioInput.toXML p element
  /\ AudioInput.toXML p (AudioInput.toXML q element) = AudioInput.toXML p element.
Proof.
  assert (Hattr : forall e e' : QDomElement.t,
    (forall name : string,
       name <> "channel_count" -> name <> "channel" -> name <> "index" ->
       name <> "type" ->
       QDomElement.attributes e !! name = QDomElement.attributes e' !! name) ->
    QDomElement.attributes (AudioOutput.toXML p e)
    = QDomElement.attributes (AudioOutput.toXML p e')).
  { intros e e' Hrest. apply map_eq. intros name.
    destruct (toXML_attributes p e) as [_ ->].
    destruct (toXML_attributes p e') as [_ ->].
    repeat case_decide; try reflexivity. apply Hrest; assumption. }
  assert (Hq : forall name : string,
    name <> "channel_count" -> name <> "channel" -> name <> "index" ->
    name <> "type" ->
    QDomElement.attributes (AudioOutput.toXML q element) !! name
    = QDomElement.attributes element !! name).
  { intros name H1 H2 H3 H4.
    destruct (toXML_attributes q element) as [_ ->].
    repeat case_decide; congruence. }
  assert (Hq' : forall name : string,
    name <> "channel_count" -> name <> "channel" -> name <> "index" ->
    name <> "type" ->
    QDomElement.attributes (AudioInput.toXML q element) !! name
    = QDomElement.attributes element !! name).
  { intros name H1 H2 H3 H4.
    destruct (toXML_attributes q element) as [<- _]. apply Hq; assumption. }
  assert (Hout : forall e : QDomElement.t,
    AudioOutput.toXML p e
    = QDomElement.mk "output" (QDomElement.attributes (AudioOutput.toXML p e)))
    by reflexivity.
  assert (Hin : forall e : QDomElement.t,
    AudioInput.toXML p e
    = QDomElement.mk "input" (QDomElement.attributes (AudioOutput.toXML p e)))
    by reflexivity.
  repeat split.
  - rewrite (Hout (AudioOutput.toXML q element)), (Hout element).
    f_equal. apply Hattr, Hq.
  - rewrite (Hout (AudioInput.toXML q element)), (Hout element).
    f_equal. apply Hattr, Hq'.
  - rewrite (Hin (AudioOutput.toXML q element)), (Hin element).
    f_equal. apply Hattr, Hq.
  - rewrite (Hin (AudioInput.toXML q element)), (Hin element).
    f_equal. apply Hattr, Hq'.
Qed.

(** X14. [toXML] sets the tag name to "output" or "input" and leaves
    every attribute other than [type], [index], [channel] and
    [channel_count] as it found it. *)
Theorem toXML_other_attributes
    (p : AudioPath.t) (element : QDomElement.t) (name defValue : string) :
  name ∉ ["type"; "index"; "channel"; "channel_count"] ->
  QDomElement.tagName (AudioOutput.toXML p element) = "output"
  /\ QDomElement.tagName (AudioInput.toXML p element) = "input"
  /\ QDomElement.attribute name defValue (AudioOutput.toXML p element)
     = QDomElement.attribute name defValue element
  /\ QDomElement.attribute name defValue (AudioInput.toXML p element)
     = QDomElement.attribute name defValue element.
Proof.
  intros Hname.
  assert (H1 : name <> "type") by (intros ->; apply Hname; set_solver).
  assert (H2 : name <> "index") by (intros ->; apply Hname; set_solver).
  assert (H3 : name <> "channel") by (intros ->; apply Hname; set_solver).
  assert (H4 : name <> "channel_count") by (intros ->; apply Hname; set_solver).
  split; [reflexivity |]. split; [reflexivity |].
  unfold QDomElement.attribute.
  destruct (toXML_attributes p element) as [<- Hl].
  rewrite Hl. repeat case_decide; try congruence. split; reflexivity.
Qed.

Lemma toXML_other_attributes_witness :
  ("device" ∉ ["type"; "index"; "channel"; "channel_count"])
  /\ QDomElement.attribute "device" ""
       (AudioOutput.toXML (AudioOutput.new MASTER 0 2 0)
          (QDomElement.mk "" (<["device" := "hw:0"]> ∅)))
     = "hw:0".
Proof.
  assert (H : "device" ∉ ["type"; "index"; "channel"; "channel_count"])
    by compute_done.
  split; [exact H |].
  destruct (toXML_other_attributes (AudioOutput.new MASTER 0 2 0)
              (QDomElement.mk "" (<["device" := "hw:0"]> ∅)) "device" "" H)
    as (_ & _ & Hout & _).
  exact Hout.
Defined.

(** ** Saving and loading again *)

Lemma AudioOutput_new_wf (type : AudioPathType) (channelBase channels index : Z) :
  uchar channelBase -> uchar channels -> uchar index ->
  AudioPath.wf (AudioOutput.new type channelBase channels index).
Proof.
  intros Hb Hc Hi. rewrite AudioOutput_new_eq.
  apply AudioPath_wf_mk; [| exact Hb | exact Hc].
  destruct (AudioPath.isIndexed type); [exact Hi | unfold uchar; lia].
Qed.

Lemma AudioInput_new_wf (vinylcontrol : bool) (type : AudioPathType)
    (channelBase channels index : Z) :
  uchar channelBase -> uchar channels -> uchar index ->
  AudioPath.wf (AudioInput.new vinylcontrol type channelBase channels index).
Proof.
  intros Hb Hc Hi. rewrite AudioInput_new_eq.
  apply AudioPath_wf_mk; [| exact Hb | exact Hc].
  destruct (AudioPath.isIndexed type); [exact Hi | unfold uchar; lia].
Qed.

Lemma migrated_uchar (b : bool) (channels : Z) :
  uchar channels ->
  uchar (if channels =? 0 then (if b then 1 else 2) else channels)
  /\ (if channels =? 0 then (if b then 1 else 2) else channels) <> 0.
Proof.
  intros Hc. destruct (Z.eqb_spec channels 0) as [-> | Hnz].
  - destruct b; unfold uchar; lia.
  - split; assumption.
Qed.

(** X15. For a route built by a constructor from any type, supported or
    not, [toXML] followed by [fromXML] gives back the route's type and
    channel base; the channel count comes back unchanged unless it was 0,
    and is never 0 afterwards (an output gets 2; an input gets 1 if it is
    a [MICROPHONE] and 2 otherwise); the index comes back if the route's
    type is indexable and as 0 if it is not. *)
Theorem roundtrip_of_constructed_route
    (type : AudioPathType) (channelBase channels index : Z)
    (element : QDomElement.t) :
  uchar channelBase -> uchar channels -> uchar index ->
  (let p := AudioOutput.new type channelBase channels index in
   let q := AudioOutput.fromXML (AudioOutput.toXML p element) in
   AudioPath.getType q = AudioPath.getType p
   /\ AudioPath.getChannelGroup q
      = ChannelGroup.new channelBase (if channels =? 0 then 2 else channels)
   /\ AudioPath.getIndex q
      = (if AudioPath.isIndexed (AudioPath.getType p)
         then AudioPath.getIndex p else 0))
  /\ (forall vinylcontrol : bool,
        let p := AudioInput.new vinylcontrol type channelBase channels index in
        let q := AudioInput.fromXML vinylcontrol (AudioInput.toXML p element) in
        AudioPath.getType q = AudioPath.getType p
        /\ AudioPath.getChannelGroup q
           = ChannelGroup.new channelBase
               (if channels =? 0
                then (if AudioPathType_eqb (AudioPath.getType p) MICROPHONE
                      then 1 else 2)
                else channels)
        /\ AudioPath.getIndex q
           = (if AudioPath.isIndexed (AudioPath.getType p)
              then AudioPath.getIndex p else 0)).
Proof.
  intros Hb Hc Hi. split.
  - intros p q. unfold q.
    rewrite AudioOutput_fromXML_toXML
      by (apply AudioOutput_new_wf; assumption).
    unfold p. rewrite !AudioOutput_new_eq.
    unfold AudioPath.getType, AudioPath.getIndex, AudioPath.getChannelGroup.
    cbn [AudioPath.m_type AudioPath.m_index AudioPath.m_channelGroup
         ChannelGroup.m_channelBase ChannelGroup.m_channels].
    destruct type; cbn; destruct (channels =? 0); repeat split; reflexivity.
  - intros vinylcontrol p q. unfold q.
    rewrite AudioInput_fromXML_toXML
      by (apply AudioInput_new_wf; assumption).
    unfold p. rewrite !AudioInput_new_eq.
    unfold AudioPath.getType, AudioPath.getIndex, AudioPath.getChannelGroup.
    cbn [AudioPath.m_type AudioPath.m_index AudioPath.m_channelGroup
         ChannelGroup.m_channelBase ChannelGroup.m_channels].
    destruct vinylcontrol, type; cbn; destruct (channels =? 0);
      repeat split; reflexivity.
Qed.

Lemma roundtrip_of_constructed_route_witness :
  uchar 6 /\ uchar 0 /\ uchar 3
  /\ AudioOutput.fromXML
       (AudioOutput.toXML (AudioOutput.new AUXILLIARY 6 0 3) (QDomElement.mk "" ∅))
     = AudioPath.mk INVALID 0 (ChannelGroup.new 6 2).
Proof.
  assert (H6 : uchar 6) by (unfold uchar; lia).
  assert (H0 : uchar 0) by (unfold uchar; lia).
  assert (H3 : uchar 3) by (unfold uchar; lia).
  split; [exact H6 |]. split; [exact H0 |]. split; [exact H3 |].
  destruct (roundtrip_of_constructed_route AUXILLIARY 6 0 3
              (QDomElement.mk "" ∅) H6 H0 H3) as [Hout _].
  cbv zeta in Hout. destruct Hout as (Ht & Hg & Hidx).
  destruct (AudioOutput.fromXML _) as [t i g].
  unfold AudioPath.getType, AudioPath.getIndex, AudioPath.getChannelGroup in *.
  cbn [AudioPath.m_type AudioPath.m_index AudioPath.m_channelGroup] in *.
  rewrite Ht, Hg, Hidx. reflexivity.
Defined.

(** X16. Saving and loading a constructed route a second time changes
    nothing: the route read back from a record is reproduced exactly by
    another [toXML] and [fromXML], into any element. *)
Theorem roundtrip_idempotent
    (type : AudioPathType) (channelBase channels index : Z)
    (element element' : QDomElement.t) :
  uchar channelBase -> uchar channels -> uchar index ->
  (let q := AudioOutput.fromXML
              (AudioOutput.toXML
                 (AudioOutput.new type channelBase channels index) element) in
   AudioOutput.fromXML (AudioOutput.toXML q element') = q)
  /\ (forall vinylcontrol : bool,
        let q := AudioInput.fromXML vinylcontrol
                   (AudioInput.toXML
                      (AudioInput.new vinylcontrol type channelBase channels index)
                      element) in
        AudioInput.fromXML vinylcontrol (AudioInput.toXML q element') = q).
Proof.
  intros Hb Hc Hi. split.
  - intros q. unfold q.
    rewrite (AudioOutput_fromXML_toXML _ element)
      by (apply AudioOutput_new_wf; assumption).
    rewrite (AudioOutput_new_eq type).
    cbn [AudioPath.m_type AudioPath.m_index AudioPath.m_channelGroup
         ChannelGroup.m_channelBase ChannelGroup.m_channels].
    match goal with
    | |- context [AudioOutput.new ?t channelBase ?m ?i] =>
        assert (Hwf : AudioPath.wf (AudioOutput.new t channelBase m i))
    end.
    { apply AudioOutput_new_wf; [exact Hb | |].
      - apply migrated_uchar, Hc.
      - destruct (AudioPath.isIndexed type); [exact Hi | unfold uchar; lia]. }
    rewrite (AudioOutput_fromXML_toXML _ element') by exact Hwf.
    rewrite !AudioOutput_new_eq.
    cbn [AudioPath.m_type AudioPath.m_index AudioPath.m_channelGroup
         ChannelGroup.m_channelBase ChannelGroup.m_channels].
    destruct type; cbn; destruct (channels =? 0) eqn:Hz; cbn;
      rewrite ?Hz; reflexivity.
  - intros vinylcontrol q. unfold q.
    rewrite (AudioInput_fromXML_toXML _ element)
      by (apply AudioInput_new_wf; assumption).
    rewrite (AudioInput_new_eq type).
    cbn [AudioPath.m_type AudioPath.m_index AudioPath.m_channelGroup
         ChannelGroup.m_channelBase ChannelGroup.m_channels].
    match goal with
    | |- context [AudioInput.new vinylcontrol ?t channelBase ?m ?i] =>
        assert (Hwf : AudioPath.wf (AudioInput.new vinylcontrol t channelBase m i))
    end.
    { apply AudioInput_new_wf; [exact Hb | |].
      - apply migrated_uchar, Hc.
      - destruct (AudioPath.isIndexed type); [exact Hi | unfold uchar; lia]. }
    rewrite (AudioInput_fromXML_toXML _ element') by exact Hwf.
    rewrite !AudioInput_new_eq.
    cbn [AudioPath.m_type AudioPath.m_index AudioPath.m_channelGroup
         ChannelGroup.m_channelBase ChannelGroup.m_channels].
    destruct vinylcontrol, type; cbn; destruct (channels =? 0) eqn:Hz; cbn;
      rewrite ?Hz; reflexivity.
Qed.

Lemma roundtrip_idempotent_witness :
  uchar 0 /\ uchar 0 /\ uchar 7
  /\ AudioInput.fromXML false
       (AudioInput.toXML
          (AudioInput.fromXML false
             (AudioInput.toXML (AudioInput.new false VINYLCONTROL 0 0 7)
                (QDomElement.mk "" ∅)))
          (QDomElement.mk "stale" (<["type" := "Deck"]> ∅)))
     = AudioInput.fromXML false
         (AudioInput.toXML (AudioInput.new false VINYLCONTROL 0 0 7)
            (QDomElement.mk "" ∅)).
Proof.
  assert (H0 : uchar 0) by (unfold uchar; lia).
  assert (H7 : uchar 7) by (unfold uchar; lia).
  split; [exact H0 |]. split; [exact H0 |]. split; [exact H7 |].
  destruct (roundtrip_idempotent VINYLCONTROL 0 0 7 (QDomElement.mk "" ∅)
              (QDomElement.mk "stale" (<["type" := "Deck"]> ∅)) H0 H0 H7)
    as [_ Hin].
  exact (Hin false).
Defined.

Lemma roundtrip_channelGroup
    (type : AudioPathType) (channelBase channels index : Z)
    (element : QDomElement.t) :
  uchar channelBase -> uchar channels -> uchar index ->
  (exists b : bool,
     AudioPath.m_channelGroup
       (AudioOutput.fromXML
          (AudioOutput.toXML
             (AudioOutput.new type channelBase channels index) element))
     = ChannelGroup.new channelBase
         (if channels =? 0 then (if b then 1 else 2) else channels))
  /\ (forall vinylcontrol : bool, exists b : bool,
        AudioPath.m_channelGroup
          (AudioInput.fromXML vinylcontrol
             (AudioInput.toXML
                (AudioInput.new vinylcontrol type channelBase channels index)
                element))
        = ChannelGroup.new channelBase
            (if channels =? 0 then (if b then 1 else 2) else channels)).
Proof.
  intros Hb Hc Hi. split.
  - rewrite AudioOutput_fromXML_toXML
      by (apply AudioOutput_new_wf; assumption).
    rewrite !AudioOutput_new_eq. eexists. reflexivity.
  - intros vinylcontrol.
    rewrite AudioInput_fromXML_toXML
      by (apply AudioInput_new_wf; assumption).
    rewrite !AudioInput_new_eq. eexists. reflexivity.
Qed.

(** X17. A constructed route with no channels clashes with no route, but
    once it has been saved and loaded it has channels and clashes with
    itself; every route read back from a saved constructed route does. *)
Theorem channelsClash_after_roundtrip
    (type : AudioPathType) (channelBase channels index : Z)
    (element : QDomElement.t) :
  uchar channelBase -> uchar channels -> uchar index ->
  (forall other : AudioPath.t,
     channels = 0 ->
     AudioPath.channelsClash
       (AudioOutput.new type channelBase channels index) other = false
     /\ forall vinylcontrol : bool,
          AudioPath.channelsClash
            (AudioInput.new vinylcontrol type channelBase channels index) other
          = false)
  /\ (let q := AudioOutput.fromXML
                 (AudioOutput.toXML
                    (AudioOutput.new type channelBase channels index) element) in
      AudioPath.channelsClash q q = true)
  /\ (forall vinylcontrol : bool,
        let q := AudioInput.fromXML vinylcontrol
                   (AudioInput.toXML
                      (AudioInput.new vinylcontrol type channelBase channels index)
                      element) in
        AudioPath.channelsClash q q = true).
Proof.
  intros Hb Hc Hi.
  assert (Hself : forall (b : bool) (m : Z),
    m = (if channels =? 0 then (if b then 1 else 2) else channels) ->
    ChannelGroup.clashesWith (ChannelGroup.new channelBase m)
      (ChannelGroup.new channelBase m) = true).
  { intros b m ->. apply clashesWith_true_iff. simpl.
    destruct (migrated_uchar b channels Hc) as [_ Hnz]. tauto. }
  split; [| split].
  - intros other ->. split.
    + rewrite AudioOutput_new_eq. reflexivity.
    + intros vinylcontrol. rewrite AudioInput_new_eq. reflexivity.
  - intros q. unfold AudioPath.channelsClash.
    destruct (roundtrip_channelGroup type channelBase channels index
                element Hb Hc Hi) as [[b Hg] _].
    unfold q. rewrite Hg. apply (Hself b). reflexivity.
  - intros vinylcontrol q. unfold AudioPath.channelsClash.
    destruct (roundtrip_channelGroup type channelBase channels index
                element Hb Hc Hi) as [_ Hin].
    destruct (Hin vinylcontrol) as [b Hg].
    unfold q. rewrite Hg. apply (Hself b). reflexivity.
Qed.

Lemma channelsClash_after_roundtrip_witness :
  uchar 0 /\ uchar 0 /\ uchar 0
  /\ AudioPath.channelsClash (AudioOutput.new MASTER 0 0 0)
       (AudioOutput.new MASTER 0 0 0) = false
  /\ AudioPath.channelsClash
       (AudioOutput.fromXML
          (AudioOutput.toXML (AudioOutput.new MASTER 0 0 0) (QDomElement.mk "" ∅)))
       (AudioOutput.fromXML
          (AudioOutput.toXML (AudioOutput.new MASTER 0 0 0) (QDomElement.mk "" ∅)))
     = true.
Proof.
  assert (H0 : uchar 0) by (unfold uchar; lia).
  split; [exact H0 |]. split; [exact H0 |]. split; [exact H0 |].
  destruct (channelsClash_after_roundtrip MASTER 0 0 0 (QDomElement.mk "" ∅)
              H0 H0 H0) as (Hnone & Hout & _).
  split; [| exact Hout].
  destruct (Hnone (AudioOutput.new MASTER 0 0 0) eq_refl) as [Hn _].
  exact Hn.
Defined.

(** ** Hash keys *)

(** X18. The three [qHash] overloads agree with [operator==] as a
    [QHash] key needs: values that compare equal have equal hashes, for
    channel groups, outputs and inputs alike and under any numbering of
    the enum. *)
Theorem qHash_respects_eqb :
  (forall g h : ChannelGroup.t,
     ChannelGroup.eqb g h = true ->
     qHash_ChannelGroup g = qHash_ChannelGroup h)
  /\ (forall (order : list AudioPathType) (a b : AudioPath.t),
        AudioPath.eqb a b = true ->
        qHash_AudioOutput order a = qHash_AudioOutput order b
        /\ qHash_AudioInput order a = qHash_AudioInput order b).
Proof.
  split.
  - intros g h Heq. apply ChannelGroup_eqb_true_iff in Heq. subst h.
    reflexivity.
  - intros order a b Heq.
    unfold AudioPath.eqb, AudioPathType_eqb in Heq.
    apply andb_true_iff in Heq. destruct Heq as [Ht Hi].
    apply bool_decide_eq_true in Ht. apply Z.eqb_eq in Hi.
    unfold qHash_AudioOutput, qHash_AudioInput, AudioPath.getHash.
    rewrite Ht, Hi. split; reflexivity.
Qed.

Example fromXML_count_256 :
  AudioOutput.fromXML
    (QDomElement.mk "output"
       (<["channel_count" := "256"]> (<["type" := "Master"]> ∅)))
  = AudioPath.mk MASTER 0 (ChannelGroup.new 0 0).
Proof. reflexivity. Qed.

Example fromXML_empty_element :
  AudioOutput.fromXML (QDomElement.mk "" ∅)
  = AudioPath.mk INVALID 0 (ChannelGroup.new 0 2).
Proof. reflexivity. Qed.

Example getString_deck_256 :
  AudioPath.getString (fun s => s) (EngineChannel.orientation 0 1 2)
    (AudioOutput.new DECK 0 2 255)
  = "Deck 256".
Proof. reflexivity. Qed.
